(** * pronto: the term graph of an ontology

    A shallow embedding of [pronto/term.py] and [pronto/ontology.py].

    Python objects are mutable and shared, so the embedding keeps an explicit
    object store:
    - every [Term] object lives at an address of [objs]; two [Term] objects
      are the same object exactly when their addresses are equal ([Term]
      defines neither [__eq__] nor [__hash__]);
    - every [relations] dictionary lives at an address of [dicts]; the
      dictionary built once for the default argument [relations = {}] of
      [Term.__init__] is shared by every [Term] constructed without an
      explicit one;
    - the cache that [functools.lru_cache] attaches to [Term.parents] is the
      field [parents_cache].

    Lists held in a dictionary are kept as values of the entry: the source
    never stores one list object under two entries ([TermList.__init__]
    copies its argument, [extend] copies the elements).

    A call returns a value, raises, or recurses without end; the two
    recursions of the source ([Term.rchildren] and the attribute lookup of
    [TermList]) take a bound on their nesting.  [json] returns the document
    that [json.dumps] renders, not its text. *)

From Stdlib Require Import ZArith Lia.
From stdpp Require Import base list strings sorting.

Local Open Scope string_scope.
Local Open Scope list_scope.

(** ** Outcomes of a call *)

Inductive exn := TypeError | KeyError | AttributeError.

(** [OutOfFuel] stands for a recursion that did not finish within the given
    number of nested calls.  A call that is [OutOfFuel] for every amount of
    fuel never returns (CPython aborts it with [RecursionError]). *)
Inductive outcome (A : Type) :=
| Ok (a : A)
| Raise (e : exn)
| OutOfFuel.
Arguments Ok {A} a.
Arguments Raise {A} e.
Arguments OutOfFuel {A}.

Global Instance outcome_ret : MRet outcome := λ A a, Ok a.
Global Instance outcome_bind : MBind outcome := λ A B f m,
  match m with
  | Ok a => f a
  | Raise e => Raise e
  | OutOfFuel => OutOfFuel
  end.

(** ** Python dictionaries with string keys

    A [dict] keeps its entries in insertion order; assigning to a key that is
    present replaces the value in place, assigning to a new key appends. *)

Abbreviation dict V := (list (string * V)) (only parsing).

Fixpoint dict_get {V} (k : string) (d : dict V) : option V :=
  match d with
  | [] => None
  | (k', v) :: d' => if decide (k = k') then Some v else dict_get k d'
  end.

Definition dict_in {V} (k : string) (d : dict V) : bool :=
  bool_decide (is_Some (dict_get k d)).

Fixpoint dict_set {V} (k : string) (v : V) (d : dict V) : dict V :=
  match d with
  | [] => [(k, v)]
  | (k', v') :: d' =>
      if decide (k = k') then (k, v) :: d' else (k', v') :: dict_set k v d'
  end.

Definition dict_keys {V} (d : dict V) : list string := d.*1.

(** [d.update(e)]: the items of [e] are assigned one after the other. *)
Definition dict_update {V} (d e : dict V) : dict V :=
  foldl (λ d kv, dict_set kv.1 kv.2 d) d e.

(** [sorted] on keys, as an insertion sort on the code-point order of [str]. *)
Fixpoint insert_sorted {V} (e : string * V) (l : list (string * V)) :=
  match l with
  | [] => [e]
  | e' :: l' =>
      if String.leb (fst e) (fst e') then e :: l else e' :: insert_sorted e l'
  end.

Definition sort_items {V} (l : list (string * V)) : list (string * V) :=
  foldr insert_sorted [] l.

(** ** Data model *)

Abbreviation addr := nat (only parsing).   (* identity of a [Term] object *)
Abbreviation daddr := nat (only parsing).  (* identity of a [relations] dictionary *)

(** What a relation list holds: an identifier (a [str]) before resolution, a
    [Term] object after it. *)
Inductive endpoint :=
| EId (s : string)
| ERef (a : addr).

Global Instance endpoint_eq_dec : EqDecision endpoint.
Proof. solve_decision. Defined.

Definition is_Term (x : endpoint) : bool :=
  match x with ERef _ => true | EId _ => false end.

(** A value of [relations]: the plain [list] left by a parser, or a
    [TermList] (an object whose attribute [terms] is a list). *)
Inductive relval :=
| PyList (l : list endpoint)
| TermList (terms : list endpoint).

(** Iterating a [list], or a [TermList] through [TermList.__iter__]. *)
Definition elements (v : relval) : list endpoint :=
  match v with PyList l => l | TermList l => l end.

(** [v.append(x)]: [list.append], reached through [TermList.__getattr__] for a
    [TermList]; the content is not checked again. *)
Definition append (v : relval) (x : endpoint) : relval :=
  match v with
  | PyList l => PyList (l ++ [x])
  | TermList l => TermList (l ++ [x])
  end.

(** A value of [other]: one value or a list of values. *)
Inductive otherval :=
| OStr (s : string)
| OList (l : list string).

Record Term := {
  id : string;
  name : string;
  desc : string;
  relations : daddr;
  other : dict otherval
}.

Record Heap := {
  objs : list Term;
  dicts : list (dict relval);
  parents_cache : list (addr * relval)
}.

(** [Ontology.terms]: identifier to [Term] object. *)
Record Ontology := { terms : dict addr }.

(** The dictionary object of the default argument [relations = {}]. *)
Definition default_relations : daddr := 0%nat.

Definition empty_Term : Term :=
  {| id := ""; name := ""; desc := ""; relations := default_relations;
     other := [] |}.

(** Dereferencing an address.  In a well-formed heap every address in use is
    allocated, and the default is never returned. *)
Definition get_obj (h : Heap) (a : addr) : Term :=
  default empty_Term (objs h !! a).

Definition get_dict (h : Heap) (d : daddr) : dict relval :=
  default [] (dicts h !! d).

Definition alloc (h : Heap) (t : Term) : addr * Heap :=
  (length (objs h),
   {| objs := objs h ++ [t]; dicts := dicts h;
      parents_cache := parents_cache h |}).

(** [d[k] = v] on the dictionary object at [d]. *)
Definition set_rel (h : Heap) (d : daddr) (k : string) (v : relval) : Heap :=
  {| objs := objs h;
     dicts := <[d := dict_set k v (get_dict h d)]> (dicts h);
     parents_cache := parents_cache h |}.

(** Arguments of a call other than relation endpoints. *)
Inductive pyval :=
| VElem (x : endpoint)
| VList (l : list endpoint)
| VSet (l : list endpoint)     (* the elements, in iteration order *)
| VTuple (l : list endpoint).

Definition as_Term (v : pyval) : option endpoint :=
  match v with
  | VElem (ERef a) => Some (ERef a)
  | _ => None
  end.

(** ** class TermList *)

Module TermList.

(** The instance under construction: the attribute [terms] is absent until
    an assignment to [self.terms] is executed. *)
Definition instance := option (list pyval).

(** The [if]/[elif] chain of [__init__]. *)
Definition assign_terms (elements : list pyval) : instance :=
  match elements with
  | [] => Some []
  | [VList l] => Some (VElem <$> l)           (* elements[0].copy() *)
  | [VSet l] => Some (VElem <$> l)            (* list(elements[0]) *)
  | [_] => None                               (* no branch assigns *)
  | _ => Some elements                        (* [term for term in elements] *)
  end.

(** What [__getattr__] returns, by branch, with the value of [self.terms]
    it was computed from: the fan-out [TermList] of an attribute of the
    elements, the list of an attribute of the elements, or an attribute of
    the underlying list. *)
Inductive attribute :=
| Fanout (attr : string) (ts : list pyval)
| Project (attr : string) (ts : list pyval)
| OfList (attr : string) (ts : list pyval).

Definition list_attributes : list string :=
  ["append"; "extend"; "insert"; "remove"; "pop"; "clear"; "index";
   "count"; "sort"; "reverse"; "copy"].

(** [__getattr__(self, attr)], called when the ordinary lookup of [attr] on
    the instance fails.  Each branch evaluates [self.terms]; on an instance
    without that attribute this is again a call of [__getattr__], with
    ["terms"], which can only end in the last branch (and a list has no
    attribute [terms]). *)
Fixpoint __getattr__ (fuel : nat) (self : instance) (attr : string)
    {struct fuel} : outcome attribute :=
  match fuel with
  | O => OutOfFuel
  | S fuel' =>
      let self_terms :=
        match self with
        | Some l => Ok l
        | None => _ ← __getattr__ fuel' self "terms"; Raise AttributeError
        end in
      if bool_decide (attr ∈ ["children"; "parents"]) then
        ts ← self_terms; Ok (Fanout attr ts)
      else if bool_decide (attr ∈ ["id"; "name"; "desc"; "other"]) then
        ts ← self_terms; Ok (Project attr ts)
      else
        ts ← self_terms;
        if bool_decide (attr ∈ list_attributes) then Ok (OfList attr ts)
        else Raise AttributeError
  end.

(** [self.terms] *)
Definition self_terms (fuel : nat) (self : instance) : outcome (list pyval) :=
  match self with
  | Some l => Ok l
  | None => _ ← __getattr__ fuel self "terms"; Raise AttributeError
  end.

Definition _check_content (fuel : nat) (self : instance) : outcome unit :=
  ts ← self_terms fuel self;
  if forallb (λ term, bool_decide (is_Some (as_Term term))) ts
  then Ok tt else Raise TypeError.

(** The constructor.  [fuel] bounds the nesting of [__getattr__] calls. *)
Definition __init__ (fuel : nat) (elements : list pyval) : outcome relval :=
  let self := assign_terms elements in
  _ ← _check_content fuel self;
  Ok (TermList (omap as_Term (default [] self))).

(** [self.id], the [Project "id"] branch of [__getattr__] evaluated:
    [[getattr(x, "id") for x in self.terms]]; a [str] has no attribute
    [id]. *)
Definition project_id (h : Heap) (terms : list endpoint) : outcome (list string) :=
  mapM (λ x, match x with
             | ERef a => Ok (id (get_obj h a))
             | EId _ => Raise AttributeError
             end) terms.

End TermList.

(** ** Loops that may raise *)

Fixpoint foldlM {A B} (f : A → B → outcome A) (a : A) (l : list B) : outcome A :=
  match l with
  | [] => Ok a
  | x :: l' => a' ← f a x; foldlM f a' l'
  end.

(** ** JSON documents, as [json.dumps] receives them *)

#[local] Set Warnings "-register-all".
Inductive JSON :=
| JStr (s : string)
| JArr (l : list JSON)
| JObj (fields : list (string * JSON)).

(** [sort_keys=True]: the keys of every object are emitted in sorted order. *)
Fixpoint sort_keys (j : JSON) : JSON :=
  match j with
  | JStr s => JStr s
  | JArr l => JArr (sort_keys <$> l)
  | JObj fields => JObj (sort_items ((λ kv, (fst kv, sort_keys (snd kv))) <$> fields))
  end.

Definition other_json (o : dict otherval) : JSON :=
  JObj ((λ '(k, v), (k, match v with
                        | OStr s => JStr s
                        | OList l => JArr (JStr <$> l)
                        end)) <$> o).

(** ** class Term *)

(** [acc.extend(v)] *)
Definition extend (acc v : relval) : relval :=
  match acc with
  | PyList l => PyList (l ++ elements v)
  | TermList l => TermList (l ++ elements v)
  end.

(** Truth value of a relation value: a [list] is true when it is not empty;
    [TermList] defines neither [__bool__] nor [__len__] (and [__getattr__] is
    not consulted for them), so an instance is always true. *)
Definition truth (v : relval) : bool :=
  match v with
  | PyList l => negb (bool_decide (l = []))
  | TermList _ => true
  end.

(** One round of the loop of [rchildren] over the children,
    [rchildren.extend(child.rchildren(...))], the recursive call being [rec]. *)
Definition extend_with (rec : addr → outcome relval)
    (acc : list endpoint) (child : endpoint) : outcome (list endpoint) :=
  match child with
  | ERef c => r ← rec c; Ok (acc ++ elements r)
  | EId _ => Raise AttributeError   (* a str has no rchildren *)
  end.

Fixpoint cache_get (a : addr) (c : list (addr * relval)) : option relval :=
  match c with
  | [] => None
  | (a', r) :: c' => if decide (a = a') then Some r else cache_get a c'
  end.

(** The line break, character 10. *)
Definition nl : string := String (Ascii.ascii_of_nat 10) "".

Module Term.

(** [Term(cid, name, desc)], with both defaults. *)
Definition __init__ (cid name desc : string) : Term :=
  {| id := cid; name := name; desc := desc;
     relations := default_relations; other := [] |}.

(** One round of the loop shared by [parents] and [children]:
    [if rship in self.relations.keys(): acc.extend(self.relations[rship])] *)
Definition extend_from (h : Heap) (self : addr) (acc : relval) (rship : string) : relval :=
  match dict_get rship (get_dict h (relations (get_obj h self))) with
  | Some v => extend acc v
  | None => acc
  end.

Definition children (h : Heap) (self : addr) : relval :=
  foldl (extend_from h self) (TermList []) ["has_part"; "can_be"].

(** The body of [parents], before the decorators. *)
Definition compute_parents (h : Heap) (self : addr) : relval :=
  foldl (extend_from h self) (TermList []) ["is_a"; "is_part"; "part_of"].

(** [parents] under [functools.lru_cache(None)]: the cache is keyed by the
    [Term] object and never evicts. *)
Definition parents (h : Heap) (self : addr) : relval * Heap :=
  match cache_get self (parents_cache h) with
  | Some r => (r, h)
  | None =>
      let r := compute_parents h self in
      (r, {| objs := objs h; dicts := dicts h;
             parents_cache := (self, r) :: parents_cache h |})
  end.

(** [set(rchildren)] compares [Term] objects by identity; the order in which
    a set is read back is not specified, [remove_dups] keeps the order of
    the first occurrences. *)
Fixpoint rchildren (fuel : nat) (h : Heap) (self : addr) (level : Z)
    (intermediate : bool) {struct fuel} : outcome relval :=
  match fuel with
  | O => OutOfFuel
  | S fuel' =>
      if bool_decide (level = 0%Z) then Ok (PyList [])
      else
        let rchildren0 : list endpoint := [] in
        if truth (children h self) then
          let rchildren1 :=
            if intermediate || bool_decide (level = 1%Z)
            then rchildren0 ++ elements (children h self)
            else rchildren0 in
          rchildren2 ←
            foldlM
              (extend_with (λ child, rchildren fuel' h child (level - 1)%Z intermediate))
              rchildren1 (elements (children h self));
          TermList.__init__ fuel' [VSet (remove_dups rchildren2)]
        else TermList.__init__ fuel' [VSet (remove_dups rchildren0)]
  end.

(** [v.id] for a value [v] of [relations]: a [list] has no attribute [id]. *)
Definition relation_ids (h : Heap) (v : relval) : outcome (list string) :=
  match v with
  | PyList _ => Raise AttributeError
  | TermList ts => TermList.project_id h ts
  end.

Definition __deref__ (h : Heap) (self : addr) : outcome JSON :=
  let t := get_obj h self in
  rels ← mapM (λ kv, ids ← relation_ids h (snd kv);
                     Ok (fst kv, JArr (JStr <$> ids)))
              (get_dict h (relations t));
  Ok (JObj [("id", JStr (id t));
            ("name", JStr (name t));
            ("other", other_json (other t));
            ("desc", JStr (desc t));
            ("relations", JObj rels)]).

(** The lines of one entry of [other]: one line per value. *)
Definition other_lines (k : string) (v : otherval) : string :=
  match v with
  | OList l => foldl (λ obo x, obo +:+ k +:+ ": " +:+ x +:+ nl) "" l
  | OStr s => k +:+ ": " +:+ s +:+ nl
  end.

(** The line of one companion of a relation. *)
Definition companion_line (h : Heap) (relation : string) (companion : endpoint) : string :=
  (if bool_decide (relation ≠ "is_a") then "relationship: " else "") +:+
  relation +:+ ": " +:+
  match companion with
  | ERef a => id (get_obj h a) +:+ " ! " +:+ name (get_obj h a) +:+ nl
  | EId s => s +:+ nl
  end.

(** [obo].  [RSHIPS] is the table of [pronto.relationship], which decides
    the kinds that are written. *)
Definition obo (RSHIPS : list string) (h : Heap) (self : addr) : string :=
  let t := get_obj h self in
  let obo0 := "[Term]" +:+ nl in
  let obo1 := obo0 +:+ "id: " +:+ id t +:+ nl in
  let obo2 := obo1 +:+ "name: " +:+ name t +:+ nl in
  let obo3 :=
    if bool_decide (desc t ≠ "") then obo2 +:+ "def: " +:+ desc t +:+ nl
    else obo2 in
  let obo4 := foldl (λ obo kv, obo +:+ other_lines kv.1 kv.2) obo3 (other t) in
  foldl (λ obo kv,
           if bool_decide (kv.1 ∈ RSHIPS)
           then foldl (λ obo companion, obo +:+ companion_line h kv.1 companion)
                      obo (elements kv.2)
           else obo)
        obo4 (get_dict h (relations t)).

End Term.

(** ** class Ontology *)

Module Ontology.

(** [self.terms[item]].  A [Term] object used as key hashes by identity and
    equals no [str], hence no key. *)
Definition __getitem__ (self : Ontology) (item : endpoint) : outcome addr :=
  match item with
  | EId s =>
      match dict_get s (terms self) with
      | Some a => Ok a
      | None => Raise KeyError
      end
  | ERef _ => Raise KeyError
  end.

Definition __contains__ (self : Ontology) (h : Heap) (item : pyval) : outcome bool :=
  match item with
  | VElem (ERef a) => Ok (dict_in (id (get_obj h a)) (terms self))
  | VElem (EId s) => Ok (dict_in s (terms self))
  | _ => Raise TypeError
  end.

(** [__iter__] and [__next__]: [self.terms[accession]] for each accession of
    [sorted(self.terms.keys())]. *)
Definition __iter__ (self : Ontology) : list addr :=
  omap (λ accession, dict_get accession (terms self))
       (dict_keys (sort_items (terms self))).

(** [json.dumps(self.terms, indent=4, sort_keys=True, default=...)], up to
    the rendering of the document as text. *)
Definition json (self : Ontology) (h : Heap) : outcome JSON :=
  fields ← mapM (λ kv, j ← Term.__deref__ h (snd kv); Ok (fst kv, j))
                (sort_items (terms self));
  Ok (sort_keys (JObj fields)).

(** The comprehension of [_reference], one element:
    [self.terms[x] if x in self.terms.keys()
     else Term(x, '', '') if not isinstance(x, Term) else x] *)
Definition resolve (self : Ontology) (h : Heap) (x : endpoint) : endpoint * Heap :=
  match x with
  | EId s =>
      match dict_get s (terms self) with
      | Some a => (ERef a, h)
      | None =>
          let '(a, h') := alloc h (Term.__init__ s "" "") in (ERef a, h')
      end
  | ERef a => (ERef a, h)
  end.

Fixpoint resolve_all (self : Ontology) (h : Heap) (relval : list endpoint)
    : list endpoint * Heap :=
  match relval with
  | [] => ([], h)
  | x :: rest =>
      let '(y, h1) := resolve self h x in
      let '(ys, h2) := resolve_all self h1 rest in
      (y :: ys, h2)
  end.

(** The body of the inner loop, for the dictionary object [d] of the term
    being visited ([self.terms[termkey]] is [termval]).  The constructor is
    given a list, which assigns [terms]: no lookup falls back to
    [__getattr__] and no fuel is needed. *)
Definition reference_relation (self : Ontology) (d : daddr) (h : Heap)
    (item : string * relval) : outcome Heap :=
  let '(relkey, relval) := item in
  let '(relvalref, h1) := resolve_all self h (elements relval) in
  tl ← TermList.__init__ 0 [VList relvalref];
  Ok (set_rel h1 d relkey tl).

(** The inner loop runs over the items the dictionary has when the loop
    starts; the body assigns only to the key being visited, which keeps
    every other entry and the order. *)
Definition reference_term (self : Ontology) (h : Heap)
    (item : string * addr) : outcome Heap :=
  let d := relations (get_obj h (snd item)) in
  foldlM (reference_relation self d) h (get_dict h d).

Definition _reference (self : Ontology) (h : Heap) : outcome Heap :=
  foldlM (reference_term self) h (terms self).

(** The triples [(parent, rel, term.id)] of one term for one kind. *)
Definition forward (h : Heap) (term : addr) (kind rel : string)
    : list (endpoint * string * string) :=
  match dict_get kind (get_dict h (relations (get_obj h term))) with
  | Some parents => (λ parent, (parent, rel, id (get_obj h term))) <$> elements parents
  | None => []
  end.

Definition relationships (self : Ontology) (h : Heap)
    : list (endpoint * string * string) :=
  term ← __iter__ self;
  forward h term "is_a" "can_be" ++
  forward h term "part_of" "has_part" ++
  forward h term "is_part" "part_of".

(** The body of the second loop of [_adopt]. *)
Definition adopt_edge (self : Ontology) (h : Heap)
    (edge : endpoint * string * string) : outcome Heap :=
  let '(parent, rel, child) := edge in
  present ← __contains__ self h (VElem parent);
  if present : bool then
    p ← __getitem__ self parent;
    let d := relations (get_obj h p) in
    let h1 :=
      if dict_in rel (get_dict h d) then h
      else set_rel h d rel (TermList []) in
    match dict_get rel (get_dict h1 d) with
    | Some v => Ok (set_rel h1 d rel (append v (EId child)))
    | None => Raise KeyError
    end
  else Ok h.

Definition _adopt (self : Ontology) (h : Heap) : outcome Heap :=
  foldlM (adopt_edge self) h (relationships self h).

Definition __len__ (self : Ontology) : nat := length (terms self).

(** [obo]: the blocks of the terms in sorted order of the accessions, a line
    break before each. *)
Definition obo (RSHIPS : list string) (self : Ontology) (h : Heap) : string :=
  foldl (λ obo term, obo +:+ nl +:+ Term.obo RSHIPS h term) "" (__iter__ self).

(** [merge(other)]; the argument is an [Ontology] or anything else.  Both
    ontologies hold [Term] objects of the one heap. *)
Definition merge (self : Ontology) (h : Heap) (other : Ontology + pyval)
    : outcome (Ontology * Heap) :=
  match other with
  | inl other =>
      let self' := {| terms := dict_update (terms self) (terms other) |} in
      h' ← _reference self' h;
      Ok (self', h')
  | inr _ => Raise TypeError
  end.

(** What [__init__] does once [_parse] has filled [self.terms], for
    [imports=False]: adoption, then reference resolution. *)
Definition __init__ (self : Ontology) (h : Heap) : outcome Heap :=
  h1 ← _adopt self h;
  _reference self h1.

End Ontology.

(** ** Well-formed heaps

    What holds of every state a Python program can be in: the dictionary of
    the default argument exists, every reference points to an allocated
    object and the keys of a dictionary are pairwise different. *)

Definition valid_endpoint (h : Heap) (x : endpoint) : Prop :=
  match x with
  | ERef a => a < length (objs h)
  | EId _ => True
  end.

Global Instance valid_endpoint_dec h x : Decision (valid_endpoint h x).
Proof. destruct x; simpl; apply _. Defined.

Definition wf (self : Ontology) (h : Heap) : Prop :=
  default_relations < length (dicts h) ∧
  NoDup (terms self).*1 ∧
  Forall (λ kv, kv.2 < length (objs h)) (terms self) ∧
  Forall (λ t, relations t < length (dicts h)) (objs h) ∧
  Forall (λ D : dict relval, NoDup D.*1) (dicts h) ∧
  Forall (λ D : dict relval,
            Forall (λ kv, Forall (valid_endpoint h) (elements kv.2)) D)
         (dicts h).

Global Instance wf_dec self h : Decision (wf self h).
Proof. unfold wf. apply _. Defined.

(** An edge of kind [k] to [x] in the dictionary at [d]. *)
Definition has_edge (h : Heap) (d : daddr) (k : string) (x : endpoint) : Prop :=
  ∃ v, dict_get k (get_dict h d) = Some v ∧ x ∈ elements v.

(** ** Vocabulary of the statements *)

(** [y] stands where [x] stood before the pass: a [Term] is kept, an
    identifier of the store becomes the store's [Term], any other
    identifier becomes a placeholder allocated during the pass. *)
Definition resolved_as (self : Ontology) (old new : Heap) (x y : endpoint) : Prop :=
  match x with
  | ERef a => y = ERef a
  | EId s =>
      match dict_get s (terms self) with
      | Some a => y = ERef a
      | None =>
          ∃ b, y = ERef b ∧ (length (objs old) ≤ b)%nat ∧
               objs new !! b = Some (Term.__init__ s "" "")
      end
  end.

Definition entry_resolved (self : Ontology) (old new : Heap) (e e' : string * relval) : Prop :=
  e'.1 = e.1 ∧
  ∃ ys, e'.2 = TermList ys ∧ Forall2 (resolved_as self old new) (elements e.2) ys.

(** The dictionary at [d] has been rewritten by the pass. *)
Definition rewritten (self : Ontology) (old new : Heap) (d : daddr) : Prop :=
  ∃ D D', dicts old !! d = Some D ∧ dicts new !! d = Some D' ∧
          Forall2 (entry_resolved self old new) D D'.

(** A rewritten dictionary holds only [TermList]s of [Term]s. *)
Definition resolved_dict (D : dict relval) : Prop :=
  Forall (λ kv, ∃ ys, kv.2 = TermList ys ∧ Forall (λ y, is_Term y = true) ys) D.

(** What the pass keeps true while it runs from the heap [h0]. *)
Definition pass_inv (self : Ontology) (h0 h : Heap) : Prop :=
  objs h0 `prefix_of` objs h ∧
  parents_cache h = parents_cache h0 ∧
  length (dicts h) = length (dicts h0) ∧
  ∀ d, dicts h !! d = dicts h0 !! d ∨ rewritten self h0 h d.

(** A forward endpoint on which the loop of [_adopt] does not raise: an
    identifier, or a [Term] whose [id] is no key of the store. *)
Definition adoptable_parent (self : Ontology) (h : Heap) (parent : endpoint) : Prop :=
  match parent with
  | EId _ => True
  | ERef a => dict_in (id (get_obj h a)) (terms self) = false
  end.

Global Instance adoptable_parent_dec self h parent :
  Decision (adoptable_parent self h parent).
Proof. destruct parent; simpl; apply _. Defined.

Definition adoptable (self : Ontology) (h : Heap) : Prop :=
  Forall (λ edge, adoptable_parent self h edge.1.1) (Ontology.relationships self h).

(** The dictionary of every term of the store is allocated. *)
Definition store_dicts_allocated (self : Ontology) (h : Heap) : Prop :=
  ∀ key a, dict_get key (terms self) = Some a →
           relations (get_obj h a) < length (dicts h).


(** The concatenation of the endpoints a term has under the given kinds. *)
Definition endpoints_under (h : Heap) (self : addr) (kinds : list string) : list endpoint :=
  kind ← kinds;
  match dict_get kind (get_dict h (relations (get_obj h self))) with
  | Some v => elements v
  | None => []
  end.

(** Every list of children in the heap holds [Term]s only. *)
Definition children_are_Terms (h : Heap) : bool :=
  forallb (λ D : dict relval,
    forallb (λ kind,
      match dict_get kind D with
      | Some v => forallb is_Term (elements v)
      | None => true
      end) ["has_part"; "can_be"]) (dicts h).

(** The children graph is acyclic: a rank decreases along every edge. *)
Definition acyclic (h : Heap) : Prop :=
  ∃ rank : addr → nat,
    ∀ self c, ERef c ∈ elements (Term.children h self) → rank c < rank self.

(** The identifier an endpoint stands for. *)
Definition endpoint_id (h : Heap) (x : endpoint) : string :=
  match x with
  | ERef a => id (get_obj h a)
  | EId s => s
  end.

(** Each kind of a dictionary with the identifiers of its endpoints. *)
Definition relations_json (h : Heap) (D : dict relval) : list (string * JSON) :=
  (λ kv, (kv.1, JArr (JStr <$> (endpoint_id h <$> elements kv.2)))) <$> D.

(** What [json] emits for the term at [a], keys sorted. *)
Definition term_json (h : Heap) (a : addr) : JSON :=
  let t := get_obj h a in
  JObj [("desc", JStr (desc t));
        ("id", JStr (id t));
        ("name", JStr (name t));
        ("other", sort_keys (other_json (other t)));
        ("relations",
         JObj (sort_items (relations_json h (get_dict h (relations t)))))].

(** The fields of a JSON object are exactly [names]. *)
Definition has_exactly_fields (j : JSON) (names : list string) : Prop :=
  ∃ fields, j = JObj fields ∧ ∀ k, k ∈ fields.*1 ↔ k ∈ names.

(** ** Example stores *)

(** The scenario of the specification with one more, dangling, reference:
    A [is_a] B and X, where X is no term of the store. *)
Definition ex_heap : Heap :=
  {| objs := [ {| id := "A"; name := "a"; desc := ""; relations := 1; other := [] |};
               {| id := "B"; name := "b"; desc := ""; relations := 2; other := [] |} ];
     dicts := [ []; [("is_a", PyList [EId "B"; EId "X"])]; [] ];
     parents_cache := [] |}.

Definition ex_store : Ontology := {| terms := [("B", 1); ("A", 0)] |}.

(** [ex_heap] after [_adopt]. *)
Definition ex_adopted : Heap :=
  {| objs := objs ex_heap;
     dicts := [ []; [("is_a", PyList [EId "B"; EId "X"])];
                [("can_be", TermList [EId "A"])] ];
     parents_cache := [] |}.

(** [ex_adopted] after [_reference]: the object at 2 is the placeholder. *)
Definition ex_resolved : Heap :=
  {| objs := objs ex_heap ++ [Term.__init__ "X" "" ""];
     dicts := [ []; [("is_a", TermList [ERef 1; ERef 2])];
                [("can_be", TermList [ERef 0])] ];
     parents_cache := [] |}.

(** A has the part X and can be X, and X is no term of the store. *)
Definition twin_heap : Heap :=
  {| objs := [ {| id := "A"; name := "a"; desc := ""; relations := 1; other := [] |} ];
     dicts := [ []; [("has_part", PyList [EId "X"]); ("can_be", PyList [EId "X"])] ];
     parents_cache := [] |}.

Definition twin_store : Ontology := {| terms := [("A", 0)] |}.

Definition twin_resolved : Heap :=
  {| objs := objs twin_heap ++ [Term.__init__ "X" "" ""; Term.__init__ "X" "" ""];
     dicts := [ []; [("has_part", TermList [ERef 1]); ("can_be", TermList [ERef 2])] ];
     parents_cache := [] |}.

(** A is part of B and B is part of A. *)
Definition cyclic_heap : Heap :=
  {| objs := objs ex_heap;
     dicts := [ []; [("part_of", PyList [EId "B"])]; [("part_of", PyList [EId "A"])] ];
     parents_cache := [] |}.

(** [cyclic_heap] after [_adopt] and [_reference]. *)
Definition cyclic_resolved : Heap :=
  {| objs := objs ex_heap;
     dicts := [ [];
                [("part_of", TermList [ERef 1]); ("has_part", TermList [ERef 1])];
                [("part_of", TermList [ERef 0]); ("has_part", TermList [ERef 0])] ];
     parents_cache := [] |}.

(** ** Vocabulary of the further properties *)

(** [c] is a child of [a]: a [Term] among [a.children]. *)
Definition child (h : Heap) (a c : addr) : Prop :=
  ERef c ∈ elements (Term.children h a).

(** [c] is reached from [a] by exactly [k] steps from a term to a child. *)
Fixpoint hops (h : Heap) (k : nat) (a c : addr) : Prop :=
  match k with
  | 0 => False
  | 1 => child h a c
  | S k' => ∃ b, child h a b ∧ hops h k' b c
  end.

(** The keys of the store are the [id]s of its terms. *)
Definition keyed_by_id (self : Ontology) (h : Heap) : Prop :=
  Forall (λ kv, id (get_obj h kv.2) = kv.1) (terms self).

Global Instance keyed_by_id_dec self h : Decision (keyed_by_id self h).
Proof. unfold keyed_by_id. apply _. Defined.

(** The order of the accessions. *)
Definition key_le {V} (e e' : string * V) : Prop := String.le e.1 e'.1.

(** The endpoints the dictionary at [d] has under [k] (none without the key). *)
Definition endpoints_at (h : Heap) (d : daddr) (k : string) : list endpoint :=
  default [] (elements <$> dict_get k (get_dict h d)).

(** What one triple of [relationships] appends to the list under [k] of the
    dictionary at [d]: the child, when the parent is a key of the store
    whose term has that dictionary and the inverse kind is [k]. *)
Definition appended_by (self : Ontology) (h : Heap) (d : daddr) (k : string)
    (edge : endpoint * string * string) : option endpoint :=
  match edge.1.1 with
  | EId P =>
      match dict_get P (terms self) with
      | Some ap =>
          if bool_decide (relations (get_obj h ap) = d ∧ edge.1.2 = k)
          then Some (EId edge.2) else None
      | None => None
      end
  | ERef _ => None
  end.

(** A placeholder: what [_reference] builds for an identifier that is no key
    of the store. *)
Definition is_placeholder (self : Ontology) (t : Term) : Prop :=
  ∃ s, (s ∉ dict_keys (terms self)) ∧ t = Term.__init__ s "" "".

(** [h'] is [h] with placeholders allocated; the cache and the number of
    dictionaries are the same. *)
Definition allocates_placeholders (self : Ontology) (h h' : Heap) : Prop :=
  ∃ news, objs h' = objs h ++ news ∧ Forall (is_placeholder self) news ∧
          parents_cache h' = parents_cache h ∧
          length (dicts h') = length (dicts h).

(** [ex_resolved] beside a second ontology, which defines X (the object at
    3, with the dictionary at 3). *)
Definition merge_heap : Heap :=
  {| objs := objs ex_resolved ++
             [ {| id := "X"; name := "x"; desc := ""; relations := 3; other := [] |} ];
     dicts := dicts ex_resolved ++ [ [("is_a", PyList [EId "A"])] ];
     parents_cache := [] |}.

Definition other_store : Ontology := {| terms := [("X", 3)] |}.

(** * Proofs *)

(** ** Loops that may raise *)

Lemma foldlM_cons {A B} (f : A → B → outcome A) a x l :
  foldlM f a (x :: l) = (a' ← f a x; foldlM f a' l).
Proof. done. Qed.

(** ** Dictionaries: lookup after assignment *)

Section dict_facts.
Context {V : Type}.
Implicit Types (d : dict V) (k : string) (v : V).

Lemma dict_get_set_eq k v d : dict_get k (dict_set k v d) = Some v.
Proof.
  induction d as [|[k' v'] d IH]; simpl.
  - by rewrite decide_True.
  - destruct (decide (k = k')) as [->|Hne]; simpl.
    + by rewrite decide_True.
    + by rewrite decide_False.
Qed.

Lemma dict_get_set_ne k k' v d :
  k ≠ k' → dict_get k' (dict_set k v d) = dict_get k' d.
Proof.
  intros Hne. induction d as [|[k0 v0] d IH]; simpl.
  - rewrite decide_False; [done | congruence].
  - destruct (decide (k = k0)) as [->|Hk]; simpl.
    + rewrite !decide_False; [done | congruence | congruence].
    + destruct (decide (k' = k0)); [done | apply IH].
Qed.

Lemma dict_get_Some_elem k v d : dict_get k d = Some v → (k, v) ∈ d.
Proof.
  induction d as [|[k' v'] d IH]; simpl; [done|].
  destruct (decide (k = k')) as [->|Hne].
  - intros [= ->]. left.
  - intros H. right. by apply IH.
Qed.

Lemma dict_get_None k d : dict_get k d = None ↔ k ∉ d.*1.
Proof.
  induction d as [|[k' v'] d IH]; simpl.
  - split; [intros _; apply not_elem_of_nil | done].
  - rewrite not_elem_of_cons. destruct (decide (k = k')) as [->|Hne].
    + split; [done | intros [? _]; done].
    + rewrite IH. tauto.
Qed.

Lemma dict_get_elem k v d : NoDup d.*1 → (k, v) ∈ d → dict_get k d = Some v.
Proof.
  induction d as [|[k' v'] d IH]; simpl; intros Hnd Hin.
  - by apply elem_of_nil in Hin.
  - apply NoDup_cons in Hnd as [Hk' Hnd].
    apply elem_of_cons in Hin as [[= -> ->]|Hin].
    + by rewrite decide_True.
    + rewrite decide_False; [by apply IH|].
      intros ->. apply Hk'. apply list_elem_of_fmap. by exists (k', v).
Qed.

(** Assigning to the key of an entry replaces that entry where it is. *)
Lemma dict_set_middle k v v0 (l1 l2 : dict V) :
  k ∉ l1.*1 → dict_set k v (l1 ++ (k, v0) :: l2) = l1 ++ (k, v) :: l2.
Proof.
  induction l1 as [|[k' v'] l1 IH]; simpl; intros Hk.
  - by rewrite decide_True.
  - apply not_elem_of_cons in Hk as [Hne Hk].
    rewrite decide_False; [|done]. by rewrite IH.
Qed.

Lemma dict_set_same k v d : NoDup d.*1 → (k, v) ∈ d → dict_set k v d = d.
Proof.
  intros Hnd Hin. apply list_elem_of_split in Hin as (l1 & l2 & ->).
  apply dict_set_middle. rewrite fmap_app in Hnd. simpl in Hnd.
  apply NoDup_app in Hnd as (_ & Hdisj & _).
  intros Hk. apply (Hdisj k Hk). left.
Qed.

Lemma dict_in_spec k d : dict_in k d = true ↔ is_Some (dict_get k d).
Proof. unfold dict_in. apply bool_decide_eq_true. Qed.

Lemma insert_sorted_perm (e : string * V) l : insert_sorted e l ≡ₚ e :: l.
Proof.
  induction l as [|e' l IH]; simpl; [done|].
  destruct (String.leb e.1 e'.1); [done|].
  rewrite IH. apply Permutation_swap.
Qed.

Lemma sort_items_perm (l : list (string * V)) : sort_items l ≡ₚ l.
Proof.
  induction l as [|e l IH]; simpl; [done|].
  by rewrite insert_sorted_perm, IH.
Qed.

End dict_facts.

(** ** The heap after an assignment to a dictionary entry *)

Lemma get_dict_set_rel_eq h d k v :
  d < length (dicts h) →
  get_dict (set_rel h d k v) d = dict_set k v (get_dict h d).
Proof.
  intros Hd. unfold get_dict at 1, set_rel. simpl.
  by rewrite list_lookup_insert_eq.
Qed.

Lemma get_dict_set_rel_ne h d d' k v :
  d ≠ d' → get_dict (set_rel h d k v) d' = get_dict h d'.
Proof.
  intros Hne. unfold get_dict, set_rel. simpl.
  by rewrite list_lookup_insert_ne.
Qed.

Lemma get_obj_lookup h a t : objs h !! a = Some t → get_obj h a = t.
Proof. unfold get_obj. by intros ->. Qed.

Lemma get_dict_lookup h d D : dicts h !! d = Some D → get_dict h d = D.
Proof. unfold get_dict. by intros ->. Qed.

Lemma get_obj_prefix h h' a :
  objs h `prefix_of` objs h' → a < length (objs h) → get_obj h' a = get_obj h a.
Proof.
  intros Hp Ha. apply lookup_lt_is_Some in Ha as [t Ht].
  unfold get_obj. by rewrite (prefix_lookup_Some _ _ _ _ Ht Hp), Ht.
Qed.

(** ** The constructor of TermList on a list *)

Lemma is_Term_as_Term x : is_Term x = true → as_Term (VElem x) = Some x.
Proof. by destruct x. Qed.

Lemma omap_as_Term ys :
  Forall (λ y, is_Term y = true) ys → omap as_Term (VElem <$> ys) = ys.
Proof.
  induction 1 as [|y ys Hy _ IH]; [done|].
  destruct y as [s|a]; [done|]. csimpl. by rewrite IH.
Qed.

Lemma check_Terms ys :
  Forall (λ y, is_Term y = true) ys →
  forallb (λ term, bool_decide (is_Some (as_Term term))) (VElem <$> ys) = true.
Proof.
  induction 1 as [|y ys Hy _ IH]; [done|].
  destruct y as [s|a]; [done|]. csimpl. by rewrite IH.
Qed.

Lemma check_not_Terms ys :
  ¬ Forall (λ y, is_Term y = true) ys →
  forallb (λ term, bool_decide (is_Some (as_Term term))) (VElem <$> ys) = false.
Proof.
  intros Hn. apply not_true_is_false. intros Hall. apply Hn.
  induction ys as [|y ys IH]; simpl in *; [done|].
  apply andb_true_iff in Hall as [Hy Hall].
  constructor.
  - destruct y; [|done]. apply bool_decide_eq_true in Hy. by destruct Hy.
  - apply IH; [|done]. intros H. apply Hn.
    constructor; [|done]. destruct y; [|done].
    apply bool_decide_eq_true in Hy. by destruct Hy.
Qed.

Lemma TermList_init_list fuel ys :
  Forall (λ y, is_Term y = true) ys →
  TermList.__init__ fuel [VList ys] = Ok (TermList ys).
Proof.
  intros Hys. unfold TermList.__init__, TermList._check_content. simpl.
  by rewrite (check_Terms _ Hys), (omap_as_Term _ Hys).
Qed.

Lemma TermList_init_set fuel ys :
  Forall (λ y, is_Term y = true) ys →
  TermList.__init__ fuel [VSet ys] = Ok (TermList ys).
Proof.
  intros Hys. unfold TermList.__init__, TermList._check_content. simpl.
  by rewrite (check_Terms _ Hys), (omap_as_Term _ Hys).
Qed.

Lemma TermList_init_empty fuel : TermList.__init__ fuel [] = Ok (TermList []).
Proof. done. Qed.

(** The attribute [terms] of an instance that never got one. *)
Lemma getattr_unassigned fuel attr :
  TermList.__getattr__ fuel None attr = OutOfFuel.
Proof.
  revert attr. induction fuel as [|fuel IH]; intros attr; simpl; [done|].
  rewrite IH. by repeat case_bool_decide.
Qed.

(** ** Reference resolution *)

Section reference.
Context (self : Ontology).

Lemma resolved_as_is_Term old new x y :
  resolved_as self old new x y → is_Term y = true.
Proof.
  unfold resolved_as. destruct x as [s|a]; [|by intros ->].
  destruct (dict_get s (terms self)); [by intros ->|].
  by intros (b & -> & _).
Qed.

Lemma resolved_as_mono old old' new new' x y :
  resolved_as self old new x y →
  (length (objs old') ≤ length (objs old))%nat →
  objs new `prefix_of` objs new' →
  resolved_as self old' new' x y.
Proof.
  unfold resolved_as. intros H Hlen Hp. destruct x as [s|a]; [|done].
  destruct (dict_get s (terms self)); [done|].
  destruct H as (b & -> & Hb & Hlook). exists b. split_and!; [done|lia|].
  by eapply prefix_lookup_Some.
Qed.

Lemma resolved_as_Term old new x y :
  is_Term x = true → resolved_as self old new x y → y = x.
Proof. by destruct x. Qed.

Lemma entry_resolved_mono old old' new new' e e' :
  entry_resolved self old new e e' →
  (length (objs old') ≤ length (objs old))%nat →
  objs new `prefix_of` objs new' →
  entry_resolved self old' new' e e'.
Proof.
  intros (Hk & ys & Hv & Hall) Hlen Hp. split; [done|].
  exists ys. split; [done|].
  eapply Forall2_impl; [exact Hall|]. intros x y Hxy.
  by eapply resolved_as_mono.
Qed.

Lemma resolve_spec h x y h' :
  Ontology.resolve self h x = (y, h') →
  objs h `prefix_of` objs h' ∧ dicts h' = dicts h ∧
  parents_cache h' = parents_cache h ∧ resolved_as self h h' x y.
Proof.
  unfold Ontology.resolve, resolved_as. destruct x as [s|a].
  - destruct (dict_get s (terms self)) as [a|]; simpl.
    + by intros [= <- <-].
    + intros [= <- <-]. simpl. split_and!; [by apply prefix_app_r|done|done|].
      exists (length (objs h)). split_and!; [done|lia|].
      by rewrite lookup_app_r, Nat.sub_diag by lia.
  - by intros [= <- <-].
Qed.

Lemma resolve_all_spec l : ∀ h ys h',
  Ontology.resolve_all self h l = (ys, h') →
  objs h `prefix_of` objs h' ∧ dicts h' = dicts h ∧
  parents_cache h' = parents_cache h ∧ Forall2 (resolved_as self h h') l ys.
Proof.
  induction l as [|x l IH]; intros h ys h'; simpl.
  - intros [= <- <-]. by split_and!.
  - destruct (Ontology.resolve self h x) as [y h1] eqn:Hx.
    destruct (Ontology.resolve_all self h1 l) as [ys' h2] eqn:Hl.
    intros [= <- <-].
    apply resolve_spec in Hx as (Hp1 & Hd1 & Hc1 & Hr1).
    apply IH in Hl as (Hp2 & Hd2 & Hc2 & Hr2).
    split_and!; [by etrans|congruence|congruence|].
    constructor.
    + by eapply resolved_as_mono.
    + eapply Forall2_impl; [exact Hr2|]. intros x' y' Hxy.
      eapply resolved_as_mono; [exact Hxy| |done].
      by apply prefix_length.
Qed.

Lemma reference_relation_spec h d k v :
  ∃ h' ys,
    Ontology.reference_relation self d h (k, v) = Ok h' ∧
    objs h `prefix_of` objs h' ∧
    parents_cache h' = parents_cache h ∧
    dicts h' = <[d := dict_set k (TermList ys) (get_dict h d)]> (dicts h) ∧
    Forall2 (resolved_as self h h') (elements v) ys.
Proof.
  unfold Ontology.reference_relation.
  destruct (Ontology.resolve_all self h (elements v)) as [ys h1] eqn:Hl.
  apply resolve_all_spec in Hl as (Hp & Hd & Hc & Hr).
  rewrite TermList_init_list; last first.
  { eapply Forall2_Forall_r; [exact Hr|]. apply Forall_forall.
    intros x _ y. apply resolved_as_is_Term. }
  exists (set_rel h1 d k (TermList ys)), ys. simpl.
  split_and!; [done|done|done| |done].
  unfold get_dict. by rewrite Hd.
Qed.

End reference.

Section reference_pass.
Context (self : Ontology).

(** The inner loop, started when the entries [done] of the dictionary at
    [d] have been rewritten self and the entries [rest] are still to visit. *)
Lemma reference_inner d rest : ∀ done h,
  d < length (dicts h) →
  get_dict h d = done ++ rest →
  NoDup (done ++ rest).*1 →
  ∃ h' rest',
    foldlM (Ontology.reference_relation self d) h rest = Ok h' ∧
    objs h `prefix_of` objs h' ∧
    parents_cache h' = parents_cache h ∧
    dicts h' = <[d := done ++ rest']> (dicts h) ∧
    Forall2 (entry_resolved self h h') rest rest'.
Proof.
  induction rest as [|[k v] rest IH]; intros done h Hd Hget Hnd.
  - exists h, []. simpl. split_and!; [done|done|done| |constructor].
    symmetry. apply list_insert_id.
    apply lookup_lt_is_Some in Hd as [D HD].
    rewrite HD. f_equal. by rewrite <- Hget, (get_dict_lookup _ _ _ HD).
  - destruct (reference_relation_spec self h d k v)
      as (h1 & ys & Hstep & Hp1 & Hc1 & Hd1 & Hr1).
    assert (Hk : k ∉ done.*1).
    { rewrite fmap_app in Hnd. apply NoDup_app in Hnd as (_ & Hdisj & _).
      intros Hin. apply (Hdisj k Hin). left. }
    rewrite Hget, dict_set_middle in Hd1 by done.
    destruct (IH (done ++ [(k, TermList ys)]) h1) as
      (h' & rest' & Hfold & Hp2 & Hc2 & Hd2 & Hr2).
    + by rewrite Hd1, length_insert.
    + unfold get_dict. rewrite Hd1, list_lookup_insert_eq by done.
      simpl. by rewrite <- app_assoc.
    + rewrite <- app_assoc. simpl. rewrite !fmap_app in *. done.
    + exists h', ((k, TermList ys) :: rest').
      rewrite foldlM_cons, Hstep. simpl. split_and!.
      * done.
      * by etrans.
      * congruence.
      * rewrite Hd2, Hd1, list_insert_insert_eq, <- app_assoc. done.
      * constructor.
        -- split; [done|]. exists ys. split; [done|].
           eapply Forall2_impl; [exact Hr1|]. intros x y Hxy.
           by eapply resolved_as_mono.
        -- eapply Forall2_impl; [exact Hr2|]. intros e e' He.
           eapply entry_resolved_mono; [exact He| |done].
           by apply prefix_length.
Qed.

Lemma entry_resolved_resolved_dict old new D D' :
  Forall2 (entry_resolved self old new) D D' → resolved_dict D'.
Proof.
  intros H. eapply Forall2_Forall_r; [exact H|]. apply Forall_forall.
  intros e _ e' (_ & ys & Hv & Hall). exists ys. split; [done|].
  eapply Forall2_Forall_r; [exact Hall|]. apply Forall_forall.
  intros x _ y. apply resolved_as_is_Term.
Qed.

(** Rewriting a rewritten self dictionary gives it back. *)
Lemma entry_resolved_again old new D D' :
  resolved_dict D → Forall2 (entry_resolved self old new) D D' → D' = D.
Proof.
  intros HD H. induction H as [|[k v] [k' v'] D D' He _ IH]; [done|].
  apply Forall_cons in HD as [(ys & Hv & Hys) HD]. simpl in *.
  destruct He as (Hk & ys' & Hv' & Hall). simpl in *. subst.
  f_equal; [|by apply IH]. f_equal. f_equal. simpl in Hall. clear -Hall Hys.
  induction Hall as [|x y xs ys' Hxy _ IH]; [done|].
  apply Forall_cons in Hys as [Hx Hys].
  f_equal; [by eapply resolved_as_Term | by apply IH].
Qed.

Lemma entry_resolved_keys old new D D' :
  Forall2 (entry_resolved self old new) D D' → D'.*1 = D.*1.
Proof.
  induction 1 as [|e e' D D' [Hk _] _ IH]; [done|].
  rewrite !fmap_cons. by f_equal.
Qed.

Lemma pass_inv_refl h : pass_inv self h h.
Proof. split_and!; [done|done|done|]. intros d. by left. Qed.

Lemma rewritten_mono h0 h h' d :
  rewritten self h0 h d →
  objs h `prefix_of` objs h' →
  dicts h' !! d = dicts h !! d →
  rewritten self h0 h' d.
Proof.
  intros (D & D' & H0 & H1 & Hall) Hp Heq. exists D, D'.
  split_and!; [done|congruence|].
  eapply Forall2_impl; [exact Hall|]. intros e e' He.
  by eapply entry_resolved_mono.
Qed.

Lemma reference_term_spec h0 h key a :
  wf self h0 → pass_inv self h0 h → a < length (objs h0) →
  ∃ h', Ontology.reference_term self h (key, a) = Ok h' ∧
        pass_inv self h0 h' ∧
        rewritten self h0 h' (relations (get_obj h0 a)) ∧
        (∀ d, rewritten self h0 h d → rewritten self h0 h' d).
Proof.
  intros (_ & _ & _ & Hrel & Hnd & _) (Hp & Hc & Hlen & Hd) Ha.
  unfold Ontology.reference_term. simpl.
  rewrite (get_obj_prefix _ _ _ Hp Ha).
  set (d := relations (get_obj h0 a)).
  assert (Hdlt : d < length (dicts h0)).
  { apply lookup_lt_is_Some in Ha as [t Ht].
    subst d. rewrite (get_obj_lookup _ _ _ Ht).
    by eapply (Forall_lookup_1 _ _ _ _ Hrel). }
  destruct (lookup_lt_is_Some_2 (dicts h0) d Hdlt) as [D0 HD0].
  assert (Hnd0 : NoDup D0.*1) by by eapply (Forall_lookup_1 _ _ _ _ Hnd).
  assert (Hcur : ∃ Dcur, dicts h !! d = Some Dcur ∧ NoDup Dcur.*1 ∧
            (Dcur = D0 ∨ Forall2 (entry_resolved self h0 h) D0 Dcur)).
  { destruct (Hd d) as [Heq|(D & D' & H0 & H1 & Hall)].
    - exists D0. split_and!; [congruence|done|by left].
    - assert (D = D0) by congruence. subst D. exists D'.
      split_and!; [done| |by right].
      by rewrite (entry_resolved_keys _ _ _ _ Hall). }
  destruct Hcur as (Dcur & Hcur & Hndcur & Hcase).
  destruct (reference_inner d Dcur [] h) as (h' & D' & Hfold & Hp' & Hc' & Hd' & Hall).
  { lia. } { by apply get_dict_lookup. } { done. }
  simpl in Hd'. rewrite (get_dict_lookup _ _ _ Hcur).
  exists h'. split; [done|].
  assert (Hlen0 : (length (objs h0) ≤ length (objs h))%nat) by by apply prefix_length.
  assert (Hother : ∀ d', d ≠ d' → dicts h' !! d' = dicts h !! d').
  { intros d' Hne. by rewrite Hd', list_lookup_insert_ne. }
  assert (Hthis : dicts h' !! d = Some D').
  { rewrite Hd', list_lookup_insert_eq; [done|lia]. }
  assert (Hrew : rewritten self h0 h' d).
  { exists D0, D'. split_and!; [done|done|]. destruct Hcase as [->|Hres].
    - eapply Forall2_impl; [exact Hall|]. intros e e' He.
      by eapply entry_resolved_mono.
    - assert (D' = Dcur) as ->.
      { eapply entry_resolved_again; [|exact Hall].
        by eapply entry_resolved_resolved_dict. }
      eapply Forall2_impl; [exact Hres|]. intros e e' He.
      by eapply entry_resolved_mono. }
  assert (Hkeep : ∀ d', rewritten self h0 h d' → rewritten self h0 h' d').
  { intros d' Hr. destruct (decide (d = d')) as [<-|Hne]; [done|].
    eapply rewritten_mono; [exact Hr|done|by apply Hother]. }
  split_and!; [|done|done].
  split_and!; [by etrans|congruence|by rewrite Hd', length_insert|].
  intros d'. destruct (decide (d = d')) as [<-|Hne]; [by right|].
  destruct (Hd d') as [Heq|Hr]; [left|right].
  - by rewrite Hother.
  - by apply Hkeep.
Qed.

Lemma reference_fold h0 items : ∀ h,
  wf self h0 → pass_inv self h0 h →
  Forall (λ kv : string * nat, kv.2 < length (objs h0)) items →
  ∃ h', foldlM (Ontology.reference_term self) h items = Ok h' ∧
        pass_inv self h0 h' ∧
        (∀ d, rewritten self h0 h d → rewritten self h0 h' d) ∧
        Forall (λ kv, rewritten self h0 h' (relations (get_obj h0 kv.2))) items.
Proof.
  induction items as [|[key a] items IH]; intros h Hwf Hinv Hitems.
  - exists h. by split_and!.
  - apply Forall_cons in Hitems as [Ha Hitems]. simpl in Ha.
    destruct (reference_term_spec h0 h key a Hwf Hinv Ha)
      as (h1 & Hstep & Hinv1 & Hrew1 & Hkeep1).
    destruct (IH h1 Hwf Hinv1 Hitems) as (h' & Hfold & Hinv' & Hkeep' & Hall).
    exists h'. rewrite foldlM_cons, Hstep. simpl.
    split_and!; [done|done|by auto|].
    constructor; [by apply Hkeep'|done].
Qed.

Lemma reference_spec h :
  wf self h →
  ∃ h', Ontology._reference self h = Ok h' ∧ pass_inv self h h' ∧
        Forall (λ kv, rewritten self h h' (relations (get_obj h kv.2)))
               (terms self).
Proof.
  intros Hwf.
  destruct (reference_fold h (terms self) h Hwf (pass_inv_refl h))
    as (h' & Hfold & Hinv & _ & Hall).
  { by destruct Hwf as (_ & _ & ? & _). }
  by exists h'.
Qed.

End reference_pass.

(** ** Reference resolution: the claims *)

Lemma wf_store_addr self h key a :
  wf self h → dict_get key (terms self) = Some a → a < length (objs h).
Proof.
  intros (_ & _ & Hst & _) Hget. apply dict_get_Some_elem in Hget.
  by apply (proj1 (Forall_forall _ _) Hst (key, a)).
Qed.

Lemma wf_endpoint self h d D i kind v j x :
  wf self h → dicts h !! d = Some D → D !! i = Some (kind, v) →
  elements v !! j = Some x → valid_endpoint h x.
Proof.
  intros (_ & _ & _ & _ & _ & Hval) HD Hi Hj.
  pose proof (Forall_lookup_1 _ _ _ _ Hval HD) as H1.
  pose proof (Forall_lookup_1 _ _ _ _ H1 Hi) as H2. simpl in H2.
  by apply (Forall_lookup_1 _ _ _ _ H2 Hj).
Qed.

(** C3.  After the reference-resolution pass every relation endpoint of
    every term of the store is a [Term] object.  The pass returns; a term of
    the store keeps its dictionary object and its kinds; each value is a
    [TermList]; position by position, a [Term] stays, an identifier that is a
    key of the store has become the store's [Term] for it, and any other
    identifier has become a [Term] allocated by the pass whose [id] is that
    identifier and whose [name] and [desc] are empty. *)
Theorem reference_endpoints_are_Terms (self : Ontology) (h : Heap) :
  wf self h →
  ∃ h', Ontology._reference self h = Ok h' ∧
    ∀ key a, dict_get key (terms self) = Some a →
      get_obj h' a = get_obj h a ∧
      ∃ D D', dicts h !! relations (get_obj h a) = Some D ∧
              dicts h' !! relations (get_obj h a) = Some D' ∧
              D'.*1 = D.*1 ∧
        ∀ i kind v', D' !! i = Some (kind, v') →
          ∃ v ys, D !! i = Some (kind, v) ∧ v' = TermList ys ∧
            Forall (λ y, ∃ b t, y = ERef b ∧ objs h' !! b = Some t) ys ∧
            length ys = length (elements v) ∧
            ∀ j x, elements v !! j = Some x →
              ∃ b t, ys !! j = Some (ERef b) ∧ objs h' !! b = Some t ∧
                match x with
                | ERef a' => b = a'
                | EId s =>
                    match dict_get s (terms self) with
                    | Some a' => b = a'
                    | None =>
                        (length (objs h) ≤ b)%nat ∧
                        id t = s ∧ name t = "" ∧ desc t = ""
                    end
                end.
Proof.
  intros Hwf. destruct (reference_spec self h Hwf) as (h' & Href & Hinv & Hall).
  exists h'. split; [done|]. intros key a Hkey.
  destruct Hinv as (Hp & _ & _ & _).
  pose proof (wf_store_addr _ _ _ _ Hwf Hkey) as Ha.
  split; [by apply get_obj_prefix|].
  apply dict_get_Some_elem in Hkey.
  pose proof (proj1 (Forall_forall _ _) Hall (key, a) Hkey) as (D & D' & HD & HD' & Hres).
  simpl in *. exists D, D'. split_and!; [done|done|by eapply entry_resolved_keys|].
  intros i kind v' Hi.
  destruct (Forall2_lookup_r _ _ _ _ _ Hres Hi) as ([k v] & Hi0 & Hk & ys & Hv & Hys).
  simpl in *. subst k v'.
  assert (Hpos : ∀ j x, elements v !! j = Some x →
            ∃ b t, ys !! j = Some (ERef b) ∧ objs h' !! b = Some t ∧
              match x with
              | ERef a' => b = a'
              | EId s =>
                  match dict_get s (terms self) with
                  | Some a' => b = a'
                  | None => (length (objs h) ≤ b)%nat ∧
                            id t = s ∧ name t = "" ∧ desc t = ""
                  end
              end).
  { intros j x Hj.
    destruct (Forall2_lookup_l _ _ _ _ _ Hys Hj) as (y & Hyj & Hxy).
    pose proof (wf_endpoint _ _ _ _ _ _ _ _ _ Hwf HD Hi0 Hj) as Hvalid.
    unfold resolved_as in Hxy. destruct x as [s|a'].
    - destruct (dict_get s (terms self)) as [a'|] eqn:Hs.
      + subst y. pose proof (wf_store_addr _ _ _ _ Hwf Hs) as Ha'.
        apply lookup_lt_is_Some in Ha' as [t Ht].
        exists a', t. split_and!; [done| |done].
        by eapply prefix_lookup_Some.
      + destruct Hxy as (b & -> & Hb & Hlook).
        exists b, (Term.__init__ s "" ""). by split_and!.
    - subst y. simpl in Hvalid. apply lookup_lt_is_Some in Hvalid as [t Ht].
      exists a', t. split_and!; [done| |done].
      by eapply prefix_lookup_Some. }
  exists v, ys. split_and!; [done|done| |symmetry; by eapply Forall2_length|done].
  apply Forall_lookup. intros j y Hyj.
  destruct (Forall2_lookup_r _ _ _ _ _ Hys Hyj) as (x & Hxj & _).
  destruct (Hpos j x Hxj) as (b & t & Hb & Ht & _).
  exists b, t. split; [congruence|done].
Qed.

Lemma resolve_all_Terms self h ys :
  Forall (λ y, is_Term y = true) ys → Ontology.resolve_all self h ys = (ys, h).
Proof.
  induction 1 as [|y ys Hy _ IH]; simpl; [done|].
  destruct y as [s|a]; [done|]. simpl. by rewrite IH.
Qed.

Lemma set_rel_same h d k v D :
  dicts h !! d = Some D → NoDup D.*1 → (k, v) ∈ D → set_rel h d k v = h.
Proof.
  intros HD Hnd Hin. unfold set_rel.
  rewrite (get_dict_lookup _ _ _ HD), (dict_set_same _ _ _ Hnd Hin).
  rewrite list_insert_id by done. by destruct h.
Qed.

(** On a dictionary that holds only [TermList]s of [Term]s the inner loop of
    [_reference] changes nothing. *)
Lemma reference_term_noop self h key a D :
  dicts h !! relations (get_obj h a) = Some D →
  NoDup D.*1 → resolved_dict D →
  Ontology.reference_term self h (key, a) = Ok h.
Proof.
  intros HD Hnd Hres. unfold Ontology.reference_term. simpl.
  rewrite (get_dict_lookup _ _ _ HD).
  assert (Hsub : ∀ e, e ∈ D → e ∈ D) by done.
  revert Hsub. generalize D at 1 3. intros rest.
  induction rest as [|[k v] rest IH]; intros Hsub; [done|].
  rewrite foldlM_cons.
  assert (Hin : (k, v) ∈ D) by (apply Hsub; left).
  pose proof (proj1 (Forall_forall _ _) Hres _ Hin) as (ys & Hv & Hys).
  simpl in Hv. subst v. unfold Ontology.reference_relation at 1. simpl.
  rewrite (resolve_all_Terms _ _ _ Hys), (TermList_init_list _ _ Hys). simpl.
  rewrite (set_rel_same _ _ _ _ _ HD Hnd Hin).
  apply IH. intros e He. apply Hsub. by right.
Qed.

Lemma reference_noop self h :
  Forall (λ kv, ∃ D, dicts h !! relations (get_obj h kv.2) = Some D ∧
                     NoDup D.*1 ∧ resolved_dict D) (terms self) →
  Ontology._reference self h = Ok h.
Proof.
  unfold Ontology._reference. generalize (terms self). intros items.
  induction 1 as [|[key a] items (D & HD & Hnd & Hres) _ IH]; [done|].
  rewrite foldlM_cons, (reference_term_noop _ _ _ _ _ HD Hnd Hres). done.
Qed.

(** After the pass, the dictionary of every term of the store holds only
    [TermList]s of [Term]s. *)
Lemma reference_resolved self h h' :
  wf self h → Ontology._reference self h = Ok h' →
  Forall (λ kv, ∃ D, dicts h' !! relations (get_obj h' kv.2) = Some D ∧
                     NoDup D.*1 ∧ resolved_dict D) (terms self).
Proof.
  intros Hwf Href.
  destruct (reference_spec self h Hwf) as (h1 & Href1 & Hinv & Hall).
  assert (h1 = h') by congruence. subst h1.
  destruct Hinv as (Hp & _ & _ & _).
  pose proof Hwf as (_ & _ & Hst & _ & Hnd & _).
  apply Forall_forall. intros [key a] Hin.
  pose proof (proj1 (Forall_forall _ _) Hall _ Hin) as (D & D' & HD & HD' & Hres).
  pose proof (proj1 (Forall_forall _ _) Hst _ Hin) as Ha.
  simpl in *. rewrite (get_obj_prefix _ _ _ Hp Ha).
  exists D'. split_and!; [done| |by eapply entry_resolved_resolved_dict].
  rewrite (entry_resolved_keys _ _ _ _ _ Hres).
  by eapply (Forall_lookup_1 _ _ _ _ Hnd).
Qed.

(** C5.  Reference resolution is idempotent: the pass returns a heap, and
    run again on that heap it returns the very same heap (the same objects,
    the same dictionaries with the same lists of [Term]s). *)
Theorem reference_idempotent (self : Ontology) (h : Heap) :
  wf self h →
  ∃ h1, Ontology._reference self h = Ok h1 ∧
        Ontology._reference self h1 = Ok h1.
Proof.
  intros Hwf. destruct (reference_spec self h Hwf) as (h1 & Href & _).
  exists h1. split; [done|].
  apply reference_noop. by eapply reference_resolved.
Qed.

Lemma entry_resolved_get self old new D D' kind v :
  Forall2 (entry_resolved self old new) D D' →
  dict_get kind D = Some v →
  ∃ ys, dict_get kind D' = Some (TermList ys) ∧
        Forall2 (resolved_as self old new) (elements v) ys.
Proof.
  induction 1 as [|[k w] [k' w'] D D' (Hk & ys & Hw & Hall) _ IH]; simpl; [done|].
  simpl in *. subst k' w'.
  destruct (decide (kind = k)) as [->|Hne]; [|done].
  intros [= ->]. by exists ys.
Qed.

(** C9.  Lookup by identifier raises [KeyError] exactly when the identifier
    is not a key of [Ontology.terms].  The reference pass leaves that map as
    it is: when a term of the store refers to an identifier that is not a
    key, the pass puts a placeholder [Term] for it in the edge list, that
    object is no value of the map, and the lookup of the identifier still
    raises [KeyError]. *)
Theorem getitem_not_found (self : Ontology) (h : Heap) (item : string) :
  wf self h →
  (Ontology.__getitem__ self (EId item) = Raise KeyError ↔
   item ∉ dict_keys (terms self)) ∧
  (∀ key a kind v j,
     dict_get key (terms self) = Some a →
     dict_get kind (get_dict h (relations (get_obj h a))) = Some v →
     elements v !! j = Some (EId item) →
     item ∉ dict_keys (terms self) →
     ∃ h' ys b,
       Ontology._reference self h = Ok h' ∧
       dict_get kind (get_dict h' (relations (get_obj h' a))) = Some (TermList ys) ∧
       ys !! j = Some (ERef b) ∧
       objs h' !! b = Some (Term.__init__ item "" "") ∧
       (∀ key', dict_get key' (terms self) ≠ Some b) ∧
       Ontology.__getitem__ self (EId item) = Raise KeyError).
Proof.
  intros Hwf.
  assert (Hiff : Ontology.__getitem__ self (EId item) = Raise KeyError ↔
                 item ∉ dict_keys (terms self)).
  { unfold Ontology.__getitem__, dict_keys. rewrite <- dict_get_None.
    destruct (dict_get item (terms self)); split; done. }
  split; [done|].
  intros key a kind v j Hkey Hkind Hj Habsent.
  destruct (reference_spec self h Hwf) as (h' & Href & Hinv & Hall).
  destruct Hinv as (Hp & _ & _ & _).
  pose proof (wf_store_addr _ _ _ _ Hwf Hkey) as Ha.
  pose proof (proj1 (Forall_forall _ _) Hall (key, a) (dict_get_Some_elem _ _ _ Hkey))
    as (D & D' & HD & HD' & Hres).
  simpl in *. rewrite (get_dict_lookup _ _ _ HD) in Hkind.
  destruct (entry_resolved_get _ _ _ _ _ _ _ Hres Hkind) as (ys & Hget & Hys).
  destruct (Forall2_lookup_l _ _ _ _ _ Hys Hj) as (y & Hyj & Hxy).
  unfold resolved_as in Hxy.
  apply dict_get_None in Habsent as Hnone. rewrite Hnone in Hxy.
  destruct Hxy as (b & -> & Hb & Hlook).
  exists h', ys, b. split_and!; [done| |done|done| |by apply Hiff].
  - by rewrite (get_obj_prefix _ _ _ Hp Ha), (get_dict_lookup _ _ _ HD').
  - intros key' Hkey'. pose proof (wf_store_addr _ _ _ _ Hwf Hkey'). lia.
Qed.

(** ** Adoption *)

Lemma get_obj_objs_eq h h' a : objs h' = objs h → get_obj h' a = get_obj h a.
Proof. unfold get_obj. by intros ->. Qed.

Lemma elements_append v x y : y ∈ elements v ∨ y = x → y ∈ elements (append v x).
Proof.
  destruct v; simpl; rewrite elem_of_app, list_elem_of_singleton; tauto.
Qed.

Lemma has_edge_set_rel_new h d k v x :
  d < length (dicts h) → x ∈ elements v → has_edge (set_rel h d k v) d k x.
Proof.
  intros Hd Hx. exists v. split; [|done].
  by rewrite get_dict_set_rel_eq, dict_get_set_eq.
Qed.

Lemma has_edge_set_rel_mono h d k v :
  d < length (dicts h) →
  (∀ w x, dict_get k (get_dict h d) = Some w → x ∈ elements w → x ∈ elements v) →
  ∀ d' k' x, has_edge h d' k' x → has_edge (set_rel h d k v) d' k' x.
Proof.
  intros Hd Hsub d' k' x (w & Hw & Hx).
  destruct (decide (d = d')) as [<-|Hne].
  - destruct (decide (k = k')) as [<-|Hk].
    + apply has_edge_set_rel_new; [done|]. by eapply Hsub.
    + exists w. split; [|done].
      by rewrite get_dict_set_rel_eq, dict_get_set_ne.
  - exists w. split; [|done]. by rewrite get_dict_set_rel_ne.
Qed.

Section adoption.
Context (self : Ontology).

Lemma wf_store_dicts h : wf self h → store_dicts_allocated self h.
Proof.
  intros Hwf key a Hkey. pose proof (wf_store_addr _ _ _ _ Hwf Hkey) as Ha.
  destruct Hwf as (_ & _ & _ & Hrel & _).
  apply lookup_lt_is_Some in Ha as [t Ht]. rewrite (get_obj_lookup _ _ _ Ht).
  by eapply (Forall_lookup_1 _ _ _ _ Hrel).
Qed.

Lemma adopt_edge_absent h P rel child :
  dict_get P (terms self) = None →
  Ontology.adopt_edge self h (EId P, rel, child) = Ok h.
Proof.
  intros HP. unfold Ontology.adopt_edge. simpl.
  replace (dict_in P (terms self)) with false; [done|].
  symmetry. apply not_true_is_false. rewrite dict_in_spec, HP.
  by intros [? ?].
Qed.

Lemma adopt_edge_spec h parent rel child :
  store_dicts_allocated self h →
  adoptable_parent self h parent →
  ∃ h', Ontology.adopt_edge self h (parent, rel, child) = Ok h' ∧
        objs h' = objs h ∧
        length (dicts h') = length (dicts h) ∧
        (∀ d k x, has_edge h d k x → has_edge h' d k x) ∧
        (∀ P ap, parent = EId P → dict_get P (terms self) = Some ap →
                 has_edge h' (relations (get_obj h ap)) rel (EId child)).
Proof.
  intros Halloc Hpar. destruct parent as [P|a].
  - destruct (dict_get P (terms self)) as [ap|] eqn:HP.
    + unfold Ontology.adopt_edge. simpl.
      replace (dict_in P (terms self)) with true
        by (symmetry; apply dict_in_spec; rewrite HP; eauto).
      simpl. rewrite HP. simpl.
      set (d := relations (get_obj h ap)).
      assert (Hd : d < length (dicts h)) by by eapply Halloc.
      destruct (dict_in rel (get_dict h d)) eqn:Hin.
      * apply dict_in_spec in Hin as [v Hv]. rewrite Hv.
        eexists. split; [done|]. split_and!.
        -- done.
        -- simpl. by rewrite length_insert.
        -- apply has_edge_set_rel_mono; [done|].
           intros w x Hw Hx. assert (w = v) by congruence. subst w.
           apply elements_append. by left.
        -- intros P' ap' [= <-] Hap'.
           assert (ap' = ap) as -> by congruence.
           apply has_edge_set_rel_new; [done|]. apply elements_append. by right.
      * assert (Hnone : dict_get rel (get_dict h d) = None).
        { destruct (dict_get rel (get_dict h d)) eqn:E; [|done].
          apply not_true_iff_false in Hin. exfalso. apply Hin.
          apply dict_in_spec. rewrite E. eauto. }
        rewrite get_dict_set_rel_eq, dict_get_set_eq by done.
        eexists. split; [done|]. split_and!.
        -- done.
        -- simpl. by rewrite !length_insert.
        -- intros d' k' x Hedge.
           apply has_edge_set_rel_mono.
           { simpl. by rewrite length_insert. }
           { rewrite get_dict_set_rel_eq, dict_get_set_eq by done.
             intros w x' [= <-]. simpl. by intros ?%elem_of_nil. }
           apply has_edge_set_rel_mono; [done| |done].
           intros w x'. by rewrite Hnone.
        -- intros P' ap' [= <-] Hap'.
           assert (ap' = ap) as -> by congruence.
           apply has_edge_set_rel_new.
           { simpl. by rewrite length_insert. }
           apply elements_append. by right.
    + rewrite adopt_edge_absent by done. exists h.
      split_and!; [done..|]. intros P' ap' [= <-]. congruence.
  - simpl in Hpar. unfold Ontology.adopt_edge. simpl. rewrite Hpar.
    exists h. split_and!; [done..|]. intros P' ap' [=].
Qed.

End adoption.

Lemma adopt_fold self edges : ∀ h,
  store_dicts_allocated self h →
  Forall (λ edge, adoptable_parent self h edge.1.1) edges →
  ∃ h', foldlM (Ontology.adopt_edge self) h edges = Ok h' ∧
        objs h' = objs h ∧
        length (dicts h') = length (dicts h) ∧
        (∀ d k x, has_edge h d k x → has_edge h' d k x) ∧
        Forall (λ edge, ∀ P ap, edge.1.1 = EId P →
                  dict_get P (terms self) = Some ap →
                  has_edge h' (relations (get_obj h ap)) edge.1.2 (EId edge.2))
               edges.
Proof.
  induction edges as [|[[parent rel] child] edges IH]; intros h Halloc Hedges.
  - exists h. by split_and!.
  - apply Forall_cons in Hedges as [Hpar Hedges]. simpl in Hpar.
    destruct (adopt_edge_spec self h parent rel child Halloc Hpar)
      as (h1 & Hstep & Hobjs1 & Hlen1 & Hmono1 & Hnew1).
    destruct (IH h1) as (h' & Hfold & Hobjs' & Hlen' & Hmono' & Hall).
    { intros key a Hkey. rewrite Hlen1, (get_obj_objs_eq _ _ _ Hobjs1).
      by eapply Halloc. }
    { eapply Forall_impl; [exact Hedges|]. intros [[p r] c]. simpl.
      destruct p; [done|]. simpl. by rewrite (get_obj_objs_eq _ _ _ Hobjs1). }
    exists h'. rewrite foldlM_cons, Hstep. simpl.
    split_and!; [done|congruence|congruence|by auto|].
    constructor.
    + simpl. intros P ap -> HP. apply Hmono'. by eapply Hnew1.
    + eapply Forall_impl; [exact Hall|]. intros [[p r] c]. simpl.
      intros H P ap -> HP. rewrite <- (get_obj_objs_eq _ _ _ Hobjs1). by eapply H.
Qed.

Lemma iter_store self key a :
  dict_get key (terms self) = Some a → a ∈ Ontology.__iter__ self.
Proof.
  intros Hkey. unfold Ontology.__iter__. apply list_elem_of_omap.
  exists key. split; [|done]. apply list_elem_of_fmap.
  exists (key, a). split; [done|].
  rewrite sort_items_perm. by apply dict_get_Some_elem.
Qed.

Lemma forward_edge h a kind rel x :
  has_edge h (relations (get_obj h a)) kind x →
  (x, rel, id (get_obj h a)) ∈ Ontology.forward h a kind rel.
Proof.
  intros (v & Hv & Hx). unfold Ontology.forward. rewrite Hv.
  apply list_elem_of_fmap. by exists x.
Qed.

(** C1 (amended).  Adoption returns when no forward endpoint is a [Term]
    whose [id] is a key of the store (in particular when all of them are
    still identifiers), and creates no object.  For every term T of the
    store with a forward edge of kind [is_a], [part_of] or [is_part] to an
    identifier P that is a key of the store, the term for P then carries the
    edge of kind [can_be], [has_part] or [part_of] to the [id] of T.  For
    an identifier P that is no key of the store the loop body returns the
    heap as it is: nothing is recorded. *)
Theorem adopt_inverse_edges (self : Ontology) (h : Heap) :
  wf self h → adoptable self h →
  ∃ h', Ontology._adopt self h = Ok h' ∧
    objs h' = objs h ∧
    (∀ key a kind rel P ap,
       dict_get key (terms self) = Some a →
       (kind, rel) ∈ [("is_a", "can_be"); ("part_of", "has_part");
                      ("is_part", "part_of")] →
       has_edge h (relations (get_obj h a)) kind (EId P) →
       dict_get P (terms self) = Some ap →
       has_edge h' (relations (get_obj h' ap)) rel (EId (id (get_obj h a)))) ∧
    (∀ g P rel child,
       dict_get P (terms self) = None →
       Ontology.adopt_edge self g (EId P, rel, child) = Ok g).
Proof.
  intros Hwf Hadopt.
  destruct (adopt_fold self (Ontology.relationships self h) h
              (wf_store_dicts self h Hwf) Hadopt)
    as (h' & Hfold & Hobjs & _ & _ & Hall).
  exists h'. split_and!; [done|done| |].
  - intros key a kind rel P ap Hkey Hkind Hedge HP.
    rewrite (get_obj_objs_eq _ _ _ Hobjs).
    assert (Hin : (EId P, rel, id (get_obj h a)) ∈ Ontology.relationships self h).
    { unfold Ontology.relationships. apply list_elem_of_bind.
      exists a. split; [|by eapply iter_store].
      rewrite !elem_of_app.
      rewrite !elem_of_cons in Hkind.
      destruct Hkind as [[= -> ->]|[[= -> ->]|[[= -> ->]|Hnil]]].
      - left. by apply forward_edge.
      - right. left. by apply forward_edge.
      - right. right. by apply forward_edge.
      - by apply elem_of_nil in Hnil. }
    by apply (proj1 (Forall_forall _ _) Hall _ Hin P ap).
  - intros g P rel child HP. by apply adopt_edge_absent.
Qed.

(** ** The constructor of TermList *)

(** C10.  A single positional argument that is neither a list nor a set
    leaves the attribute [terms] unassigned, and the constructor does not
    return for any bound on the nesting of [__getattr__]: the lookup of
    [self.terms] in [_check_content] falls back to [__getattr__], which looks
    [self.terms] up again.  [terms] is assigned exactly for no argument, one
    list, one set, or two or more arguments. *)
Theorem TermList_single_argument (v : pyval) :
  (∀ l, v ≠ VList l) → (∀ l, v ≠ VSet l) →
  TermList.assign_terms [v] = None ∧
  (∀ fuel, TermList.__getattr__ fuel (TermList.assign_terms [v]) "terms" = OutOfFuel) ∧
  (∀ fuel, TermList.__init__ fuel [v] = OutOfFuel) ∧
  (∀ elements, is_Some (TermList.assign_terms elements) ↔
     elements = [] ∨ (∃ l, elements = [VList l]) ∨ (∃ l, elements = [VSet l]) ∨
     (2 ≤ length elements)%nat).
Proof.
  intros Hlist Hset.
  assert (Hnone : TermList.assign_terms [v] = None).
  { destruct v as [x|l|l|l]; [done| | |done].
    - by destruct (Hlist l).
    - by destruct (Hset l). }
  split_and!; [done| | |].
  - intros fuel. rewrite Hnone. apply getattr_unassigned.
  - intros fuel. unfold TermList.__init__, TermList._check_content,
      TermList.self_terms. rewrite Hnone. by rewrite getattr_unassigned.
  - intros elements. destruct elements as [|w [|w' elements]].
    + split; [by left | by eexists].
    + destruct w as [x|l|l|l]; simpl; split.
      * by intros [? ?].
      * intros [?|[[? ?]|[[? ?]|?]]]; try done. lia.
      * intros _. right. left. by eexists.
      * by eexists.
      * intros _. right. right. left. by eexists.
      * by eexists.
      * by intros [? ?].
      * intros [?|[[? ?]|[[? ?]|?]]]; try done. lia.
    + split.
      * intros _. right. right. right. simpl. lia.
      * intros _. destruct w; by eexists.
Qed.

(** ** Derived properties *)

Lemma foldl_extend_from h self kinds : ∀ acc,
  foldl (Term.extend_from h self) (TermList acc) kinds =
  TermList (acc ++ endpoints_under h self kinds).
Proof.
  induction kinds as [|kind kinds IH]; intros acc; simpl.
  - by rewrite app_nil_r.
  - unfold Term.extend_from at 2, endpoints_under. simpl.
    destruct (dict_get kind _) as [v|]; simpl.
    + rewrite IH. unfold endpoints_under. by rewrite <- app_assoc.
    + apply IH.
Qed.

(** C8 (amended).  [children] is computed from [relations] at each access:
    on every heap it is the concatenation of the current endpoints under
    [has_part] and [can_be].  [parents] is computed from [relations], as the
    concatenation under [is_a], [is_part] and [part_of], at the first access
    on a [Term] object; that value is then in the cache, and on every heap
    whose cache holds a value for the object [parents] returns that value and
    changes nothing, whatever [relations] has become. *)
Theorem children_computed_parents_cached (h : Heap) (self : addr) :
  Term.children h self = TermList (endpoints_under h self ["has_part"; "can_be"]) ∧
  (cache_get self (parents_cache h) = None →
   (Term.parents h self).1 =
     TermList (endpoints_under h self ["is_a"; "is_part"; "part_of"])) ∧
  cache_get self (parents_cache (Term.parents h self).2) =
    Some (Term.parents h self).1 ∧
  (∀ h2 r, cache_get self (parents_cache h2) = Some r →
           Term.parents h2 self = (r, h2)).
Proof.
  split_and!.
  - unfold Term.children. by rewrite foldl_extend_from.
  - intros Hmiss.
    assert (Hbody : Term.compute_parents h self =
              TermList (endpoints_under h self ["is_a"; "is_part"; "part_of"])).
    { unfold Term.compute_parents. by rewrite foldl_extend_from. }
    unfold Term.parents. by rewrite Hmiss, Hbody.
  - unfold Term.parents.
    destruct (cache_get self (parents_cache h)) as [r|] eqn:Hget; simpl.
    + done.
    + by rewrite decide_True.
  - intros h2 r Hhit. unfold Term.parents. by rewrite Hhit.
Qed.

(** ** Recursive children *)

Lemma TermList_init_set_inv fuel l r :
  TermList.__init__ fuel [VSet l] = Ok r →
  r = TermList l ∧ Forall (λ y, is_Term y = true) l.
Proof.
  destruct (decide (Forall (λ y, is_Term y = true) l)) as [Hall|Hnot].
  - rewrite TermList_init_set by done. by intros [= <-].
  - unfold TermList.__init__, TermList._check_content. simpl.
    by rewrite (check_not_Terms _ Hnot).
Qed.

Lemma children_truth h self : truth (Term.children h self) = true.
Proof. unfold Term.children. by rewrite foldl_extend_from. Qed.

Lemma rchildren_step fuel h self level im :
  Term.rchildren (S fuel) h self level im =
  if bool_decide (level = 0%Z) then Ok (PyList [])
  else
    rc ← foldlM (extend_with (λ c, Term.rchildren fuel h c (level - 1)%Z im))
           (if im || bool_decide (level = 1%Z)
            then elements (Term.children h self) else [])
           (elements (Term.children h self));
    TermList.__init__ fuel [VSet (remove_dups rc)].
Proof.
  change (Term.rchildren (S fuel) h self level im) with
    (if bool_decide (level = 0%Z) then Ok (PyList [])
     else
       if truth (Term.children h self) then
         rc ← foldlM (extend_with (λ c, Term.rchildren fuel h c (level - 1)%Z im))
                (if im || bool_decide (level = 1%Z)
                 then [] ++ elements (Term.children h self) else [])
                (elements (Term.children h self));
         TermList.__init__ fuel [VSet (remove_dups rc)]
       else TermList.__init__ fuel [VSet (remove_dups [])]).
  by rewrite children_truth.
Qed.

Lemma rchildren_Ok fuel h self level im r :
  Term.rchildren fuel h self level im = Ok r →
  Forall (λ y, is_Term y = true) (elements r) ∧ NoDup (elements r).
Proof.
  destruct fuel as [|fuel]; [done|]. rewrite rchildren_step.
  case_bool_decide.
  - intros [= <-]. split; [done|apply NoDup_nil_2].
  - destruct (foldlM _ _ _) as [rc| |]; simpl; [|done|done].
    intros [-> Hall]%TermList_init_set_inv. simpl.
    split; [done|apply NoDup_remove_dups].
Qed.

Lemma extend_with_Ok rec cs : ∀ acc,
  Forall (λ y, is_Term y = true) cs →
  (∀ c, ERef c ∈ cs → ∃ r, rec c = Ok r) →
  ∃ rc, foldlM (extend_with rec) acc cs = Ok rc ∧
        (Forall (λ y, is_Term y = true) acc →
         (∀ c r, rec c = Ok r → Forall (λ y, is_Term y = true) (elements r)) →
         Forall (λ y, is_Term y = true) rc).
Proof.
  induction cs as [|child cs IH]; intros acc Hcs Hrec.
  - exists acc. by split.
  - apply Forall_cons in Hcs as [Hchild Hcs].
    destruct child as [s|c]; [done|].
    destruct (Hrec c) as [r Hr]; [left|].
    destruct (IH (acc ++ elements r) Hcs) as (rc & Hrc & Hterm).
    { intros c' Hc'. apply Hrec. by right. }
    exists rc. rewrite foldlM_cons. simpl. rewrite Hr. simpl.
    split; [done|]. intros Hacc Hgood. apply Hterm; [|done].
    apply Forall_app. split; [done|]. by eapply Hgood.
Qed.

Lemma children_are_Terms_spec h self :
  children_are_Terms h = true →
  Forall (λ y, is_Term y = true) (elements (Term.children h self)).
Proof.
  intros Hall. unfold Term.children. rewrite foldl_extend_from. simpl.
  unfold endpoints_under, get_dict. simpl.
  destruct (dicts h !! relations (get_obj h self)) as [D|] eqn:HD; simpl; [|done].
  unfold children_are_Terms in Hall.
  rewrite forallb_forall in Hall.
  apply list_elem_of_lookup_2, list_elem_of_In, Hall in HD.
  simpl in HD. apply andb_true_iff in HD as [H1 H2].
  apply andb_true_iff in H2 as [H2 _].
  rewrite app_nil_r. apply Forall_app. split.
  - destruct (dict_get "has_part" D); [|done].
    apply Forall_forall. intros y Hy%list_elem_of_In.
    by apply (proj1 (forallb_forall _ _) H1).
  - destruct (dict_get "can_be" D); [|done].
    apply Forall_forall. intros y Hy%list_elem_of_In.
    by apply (proj1 (forallb_forall _ _) H2).
Qed.

(** [rchildren] returns as soon as the fuel exceeds a measure that decreases
    from a term to its children. *)
Lemma rchildren_returns h (P : addr → Z → Prop) (m : addr → Z → nat) im :
  children_are_Terms h = true →
  (∀ self level c, P self level → level ≠ 0%Z →
     ERef c ∈ elements (Term.children h self) →
     P c (level - 1)%Z ∧ m c (level - 1)%Z < m self level) →
  ∀ fuel self level, P self level → m self level < fuel →
    ∃ r, Term.rchildren fuel h self level im = Ok r.
Proof.
  intros Hterms Hdec. induction fuel as [|fuel IH]; intros self level HP Hm; [lia|].
  rewrite rchildren_step. case_bool_decide as Hlevel; [by eexists|].
  destruct (extend_with_Ok (λ c, Term.rchildren fuel h c (level - 1)%Z im)
              (elements (Term.children h self))
              (if im || bool_decide (level = 1%Z)
               then elements (Term.children h self) else []))
    as (rc & Hrc & Hgood).
  { by apply children_are_Terms_spec. }
  { intros c Hc. destruct (Hdec self level c HP Hlevel Hc) as [HPc Hmc].
    apply IH; [done|lia]. }
  assert (Hterm : Forall (λ y, is_Term y = true) rc).
  { apply Hgood.
    - destruct (im || bool_decide (level = 1%Z)); [|done].
      by apply children_are_Terms_spec.
    - intros c r Hr. by apply rchildren_Ok in Hr as [? _]. }
  rewrite Hrc. simpl. eexists. apply TermList_init_set.
  apply Forall_forall. intros y Hy. rewrite elem_of_remove_dups in Hy.
  by apply (proj1 (Forall_forall _ _) Hterm).
Qed.

Lemma extend_with_mono (rec rec' : addr → outcome relval) cs : ∀ acc rc,
  (∀ c r, rec c = Ok r → rec' c = Ok r) →
  foldlM (extend_with rec) acc cs = Ok rc →
  foldlM (extend_with rec') acc cs = Ok rc.
Proof.
  induction cs as [|child cs IH]; intros acc rc Hmono; [done|].
  rewrite !foldlM_cons. destruct child as [s|c]; [done|]. simpl.
  destruct (rec c) as [r| |] eqn:Hr; simpl; [|done|done].
  rewrite (Hmono _ _ Hr). simpl. by apply IH.
Qed.

(** More fuel does not change a result. *)
Lemma rchildren_fuel_mono h im fuel : ∀ fuel' self level r,
  (fuel ≤ fuel')%nat →
  Term.rchildren fuel h self level im = Ok r →
  Term.rchildren fuel' h self level im = Ok r.
Proof.
  induction fuel as [|fuel IH]; intros fuel' self level r Hle; [done|].
  destruct fuel' as [|fuel']; [lia|]. rewrite !rchildren_step.
  case_bool_decide; [done|].
  destruct (foldlM _ _ _) as [rc| |] eqn:Hrc; simpl; [|done|done].
  rewrite (extend_with_mono _ (λ c, Term.rchildren fuel' h c (level - 1)%Z im)
             _ _ _ ltac:(intros c r'; apply IH; lia) Hrc).
  simpl. intros [-> Hall]%TermList_init_set_inv. by apply TermList_init_set.
Qed.

(** C2 (amended).  On a heap whose lists of children hold [Term]s,
    [rchildren] returns for every depth bound [level >= 0], whatever the
    graph, and for every [level] (in particular [-1]) when the children
    graph is acyclic: from some amount of fuel on, the call returns one and
    the same collection, in which no [Term] object occurs twice. *)
Theorem rchildren_terminates (h : Heap) (self : addr) (level : Z)
    (intermediate : bool) :
  children_are_Terms h = true →
  (0 ≤ level)%Z ∨ acyclic h →
  ∃ fuel r,
    (∀ fuel', (fuel ≤ fuel')%nat →
       Term.rchildren fuel' h self level intermediate = Ok r) ∧
    Forall (λ y, is_Term y = true) (elements r) ∧
    NoDup (elements r).
Proof.
  intros Hterms Hcase.
  assert (Hret : ∃ fuel r, Term.rchildren fuel h self level intermediate = Ok r).
  { destruct Hcase as [Hlevel|[rank Hrank]].
    - exists (S (Z.to_nat level)).
      apply (rchildren_returns h (λ _ l, (0 ≤ l)%Z) (λ _ l, Z.to_nat l));
        [done| |done|lia].
      intros s l c Hl Hl0 _. split; lia.
    - exists (S (rank self)).
      apply (rchildren_returns h (λ _ _, True) (λ s _, rank s));
        [done| |done|lia].
      intros s l c _ _ Hc. split; [done|by apply Hrank]. }
  destruct Hret as (fuel & r & Hr). exists fuel, r. split.
  - intros fuel' Hle. by eapply rchildren_fuel_mono.
  - by eapply rchildren_Ok.
Qed.

(** C7 (amended).  The collection returned by [rchildren] is deduplicated
    by object identity: it holds [Term] objects only and no object twice.
    (Two different objects with one [id] may both occur.) *)
Theorem rchildren_distinct_objects (fuel : nat) (h : Heap) (self : addr)
    (level : Z) (intermediate : bool) (r : relval) :
  Term.rchildren fuel h self level intermediate = Ok r →
  Forall (λ y, is_Term y = true) (elements r) ∧
  ∀ i j x y, elements r !! i = Some x → elements r !! j = Some y →
             i ≠ j → x ≠ y.
Proof.
  intros [Hterms Hnd]%rchildren_Ok. split; [done|].
  intros i j x y Hi Hj Hij ->. apply Hij. by eapply NoDup_lookup.
Qed.

(** ** Dereferenced JSON *)

Lemma mapM_Ok {A B} (f : A → outcome B) (g : A → B) l :
  Forall (λ x, f x = Ok (g x)) l → mapM f l = Ok (g <$> l).
Proof.
  induction 1 as [|x l Hx _ IH]; [done|].
  cbn. rewrite Hx. cbn. by rewrite IH.
Qed.

Lemma project_id_Terms h ys :
  Forall (λ y, is_Term y = true) ys →
  TermList.project_id h ys = Ok (endpoint_id h <$> ys).
Proof.
  intros Hys. unfold TermList.project_id. apply mapM_Ok.
  eapply Forall_impl; [exact Hys|]. by intros [s|a].
Qed.

Lemma deref_resolved h a D :
  dicts h !! relations (get_obj h a) = Some D →
  resolved_dict D →
  Term.__deref__ h a =
  Ok (JObj [("id", JStr (id (get_obj h a)));
            ("name", JStr (name (get_obj h a)));
            ("other", other_json (other (get_obj h a)));
            ("desc", JStr (desc (get_obj h a)));
            ("relations", JObj (relations_json h D))]).
Proof.
  intros HD Hres. unfold Term.__deref__.
  rewrite (get_dict_lookup _ _ _ HD).
  rewrite (mapM_Ok _ (λ kv, (kv.1, JArr (JStr <$> (endpoint_id h <$> elements kv.2))))).
  - done.
  - eapply Forall_impl; [exact Hres|]. intros [k v] (ys & Hv & Hys).
    simpl in *. subst v. simpl. by rewrite project_id_Terms.
Qed.

Lemma sort_keys_strings (ids : list string) :
  sort_keys <$> (JStr <$> ids) = JStr <$> ids.
Proof. induction ids as [|s ids IH]; [done|]. csimpl. by rewrite IH. Qed.

Lemma sort_keys_relations h D :
  (λ kv, (kv.1, sort_keys kv.2)) <$> relations_json h D = relations_json h D.
Proof.
  unfold relations_json. induction D as [|[k v] D IH]; [done|].
  csimpl. rewrite IH. do 2 f_equal. simpl. by rewrite sort_keys_strings.
Qed.

Lemma sort_keys_JObj fields :
  sort_keys (JObj fields) =
  JObj (sort_items ((λ kv, (kv.1, sort_keys kv.2)) <$> fields)).
Proof. reflexivity. Qed.

Lemma sort_keys_fields (i n d : string) (o : JSON) (R : list (string * JSON)) :
  sort_keys (JObj [("id", JStr i); ("name", JStr n); ("other", o);
                   ("desc", JStr d); ("relations", JObj R)]) =
  JObj [("desc", JStr d); ("id", JStr i); ("name", JStr n);
        ("other", sort_keys o);
        ("relations", JObj (sort_items ((λ kv, (kv.1, sort_keys kv.2)) <$> R)))].
Proof. reflexivity. Qed.

Lemma json_resolved self h :
  Forall (λ kv, ∃ D, dicts h !! relations (get_obj h kv.2) = Some D ∧
                     NoDup D.*1 ∧ resolved_dict D) (terms self) →
  Ontology.json self h =
  Ok (JObj (sort_items ((λ kv, (kv.1, term_json h kv.2)) <$> sort_items (terms self)))).
Proof.
  intros Hall. unfold Ontology.json.
  rewrite (mapM_Ok _ (λ kv, (kv.1,
     JObj [("id", JStr (id (get_obj h kv.2)));
           ("name", JStr (name (get_obj h kv.2)));
           ("other", other_json (other (get_obj h kv.2)));
           ("desc", JStr (desc (get_obj h kv.2)));
           ("relations", JObj (relations_json h (get_dict h (relations (get_obj h kv.2)))))]))).
  - cbn [mbind outcome_bind]. rewrite sort_keys_JObj. do 3 f_equal.
    rewrite <- list_fmap_compose. apply list_fmap_ext.
    intros i [k a] _. cbn [compose fst snd]. f_equal.
    unfold term_json. by rewrite sort_keys_fields, sort_keys_relations.
  - apply Forall_forall. intros [k a] Hin. simpl.
    rewrite <- (sort_items_perm (terms self)) in Hall.
    pose proof (proj1 (Forall_forall _ _) Hall _ Hin) as (D & HD & _ & Hres).
    simpl in HD. rewrite (deref_resolved _ _ _ HD Hres). simpl.
    by rewrite (get_dict_lookup _ _ _ HD).
Qed.

(** C6 (amended).  After reference resolution the JSON serialization
    returns an object whose keys are the keys of the store; the value for a
    key has exactly the fields [desc], [id], [name], [other] and [relations]
    (the description is emitted under [desc]), and [relations] maps each kind
    to the array of the [id]s of its endpoints: strings, never an object for
    a [Term]. *)
Theorem json_dereferenced (self : Ontology) (h : Heap) :
  wf self h →
  ∃ h' fields,
    Ontology._reference self h = Ok h' ∧
    Ontology.json self h' = Ok (JObj fields) ∧
    fields.*1 ≡ₚ dict_keys (terms self) ∧
    ∀ key j, (key, j) ∈ fields →
      ∃ a, dict_get key (terms self) = Some a ∧
        j = JObj [("desc", JStr (desc (get_obj h' a)));
                  ("id", JStr (id (get_obj h' a)));
                  ("name", JStr (name (get_obj h' a)));
                  ("other", sort_keys (other_json (other (get_obj h' a))));
                  ("relations",
                   JObj (sort_items
                     ((λ kv, (kv.1, JArr (JStr <$> (endpoint_id h' <$> elements kv.2))))
                        <$> get_dict h' (relations (get_obj h' a)))))].
Proof.
  intros Hwf. destruct (reference_spec self h Hwf) as (h' & Href & _).
  pose proof (reference_resolved self h h' Hwf Href) as Hres.
  exists h', (sort_items ((λ kv, (kv.1, term_json h' kv.2)) <$> sort_items (terms self))).
  split_and!; [done|by apply json_resolved| |].
  - unfold dict_keys. rewrite sort_items_perm, <- list_fmap_compose.
    by rewrite sort_items_perm.
  - intros key j Hin. rewrite sort_items_perm in Hin.
    apply list_elem_of_fmap in Hin as ([k a] & [= -> ->] & Hin).
    rewrite sort_items_perm in Hin. exists a. split; [|done].
    destruct Hwf as (_ & Hnd & _). by apply dict_get_elem.
Qed.

(** The example heaps are what the passes compute. *)
Lemma ex_wf : wf ex_store ex_heap.
Proof. apply (bool_decide_unpack _). by vm_compute. Qed.

Lemma ex_adopt : Ontology._adopt ex_store ex_heap = Ok ex_adopted.
Proof. reflexivity. Qed.

Lemma ex_reference : Ontology._reference ex_store ex_adopted = Ok ex_resolved.
Proof. reflexivity. Qed.

Lemma twin_reference : Ontology._reference twin_store twin_heap = Ok twin_resolved.
Proof. reflexivity. Qed.

Lemma cyclic_pipeline :
  Ontology._adopt ex_store cyclic_heap ≫= Ontology._reference ex_store =
  Ok cyclic_resolved.
Proof. reflexivity. Qed.

(** ** Counterexamples to the claims as stated *)

(** C1 as stated fails: A has the forward edge [is_a] to X, and after
    adoption no [Term] with [id] X carries a [can_be] edge to A (the heap has
    no such [Term] at all).  On the resolved store, where the forward
    endpoint of A is the [Term] B of the store, adoption raises [KeyError]. *)
Lemma adopt_skips_absent_parent :
  dict_get "A" (terms ex_store) = Some 0 ∧
  has_edge ex_heap (relations (get_obj ex_heap 0)) "is_a" (EId "X") ∧
  Ontology._adopt ex_store ex_heap = Ok ex_adopted ∧
  ¬ (∃ p t, objs ex_adopted !! p = Some t ∧ id t = "X" ∧
            has_edge ex_adopted (relations t) "can_be" (EId "A")) ∧
  Ontology._adopt ex_store ex_resolved = Raise KeyError.
Proof.
  split_and!; [done| |done| |done].
  - eexists. split; [done|]. simpl. right. left.
  - intros (p & t & Hp & Hid & _).
    destruct p as [|[|p]]; simpl in Hp; [| |done]; by injection Hp as <-.
Qed.

Lemma cyclic_never_returns fuel : ∀ self level,
  self < 2 → (level < 0)%Z →
  Term.rchildren fuel cyclic_resolved self level true = OutOfFuel.
Proof.
  induction fuel as [|fuel IH]; intros self level Hself Hlevel; [done|].
  rewrite rchildren_step. rewrite bool_decide_eq_false_2 by lia.
  destruct self as [|[|self]]; [| |lia].
  - change (elements (Term.children cyclic_resolved 0)) with [ERef 1].
    rewrite foldlM_cons. simpl. by rewrite IH by lia.
  - change (elements (Term.children cyclic_resolved 1)) with [ERef 0].
    rewrite foldlM_cons. simpl. by rewrite IH by lia.
Qed.

(** C2 as stated fails: on the store where A is part of B and B is part of
    A, after adoption and resolution, [rchildren(level=-1)] of A does not
    return, whatever the fuel.  Before resolution, where a child is still an
    identifier, [rchildren] raises [AttributeError]. *)
Lemma rchildren_diverges_on_cycle :
  Ontology._adopt ex_store cyclic_heap ≫= Ontology._reference ex_store =
    Ok cyclic_resolved ∧
  children_are_Terms cyclic_resolved = true ∧
  (∀ fuel, Term.rchildren fuel cyclic_resolved 0 (-1) true = OutOfFuel) ∧
  Term.rchildren 2 ex_adopted 1 (-1) true = Raise AttributeError.
Proof.
  split_and!; [done|done| |done]. intros fuel. apply cyclic_never_returns; lia.
Qed.

(** C6 as stated fails: the value serialized for A has a field [desc] and no
    field [description].  Before resolution, where a value of [relations] is
    a plain list, the serialization raises [AttributeError]. *)
Lemma json_field_is_desc :
  ∃ jA jB,
    Ontology.json ex_store ex_resolved = Ok (JObj [("A", jA); ("B", jB)]) ∧
    has_exactly_fields jA ["desc"; "id"; "name"; "other"; "relations"] ∧
    ¬ has_exactly_fields jA ["id"; "name"; "other"; "description"; "relations"] ∧
    Ontology.json ex_store ex_heap = Raise AttributeError.
Proof.
  eexists _, _. split; [reflexivity|]. split_and!; [| |done].
  - eexists. split; [done|]. intros k. done.
  - intros (fields & [= <-] & Hk).
    assert (Hin : "description" ∈ ["id"; "name"; "other"; "description"; "relations"])
      by (do 3 right; left).
    apply Hk in Hin. simpl in Hin.
    repeat (apply elem_of_cons in Hin as [Hin|Hin]; [done|]).
    by apply elem_of_nil in Hin.
Qed.

(** C7 as stated fails: the two placeholders for X are both returned, and
    they have the same [id]. *)
Lemma rchildren_placeholders_share_id :
  Ontology._reference twin_store twin_heap = Ok twin_resolved ∧
  Term.rchildren 3 twin_resolved 0 (-1) true = Ok (TermList [ERef 1; ERef 2]) ∧
  ¬ (∀ i j x y,
       [ERef 1; ERef 2] !! i = Some (ERef x) →
       [ERef 1; ERef 2] !! j = Some (ERef y) →
       i ≠ j → id (get_obj twin_resolved x) ≠ id (get_obj twin_resolved y)).
Proof.
  split_and!; [done|done|]. intros H. by apply (H 0 1 1 2).
Qed.

(** C8 as stated fails for [parents]: read once before resolution, it keeps
    returning the identifiers it found then, not the [Term]s that
    [relations] holds after resolution. *)
Lemma parents_stale_after_reference :
  ∃ h1 h2,
    Term.parents ex_adopted 0 = (TermList [EId "B"; EId "X"], h1) ∧
    Ontology._reference ex_store h1 = Ok h2 ∧
    endpoints_under h2 0 ["is_a"; "is_part"; "part_of"] = [ERef 1; ERef 2] ∧
    (Term.parents h2 0).1 = TermList [EId "B"; EId "X"] ∧
    (Term.parents h2 0).1 ≠
      TermList (endpoints_under h2 0 ["is_a"; "is_part"; "part_of"]).
Proof. eexists _, _. split_and!; [reflexivity|reflexivity|done|done|done]. Qed.

(** C4: adoption stores a [str] in a [TermList].  On the scenario of the
    specification, after [_adopt] the [can_be] value of B is a [TermList]
    whose only element is the identifier of A, a content for which the
    constructor of [TermList] raises [TypeError]. *)
Theorem adopt_appends_str_to_TermList :
  Ontology._adopt ex_store ex_heap = Ok ex_adopted ∧
  dict_get "can_be" (get_dict ex_adopted (relations (get_obj ex_adopted 1))) =
    Some (TermList [EId "A"]) ∧
  (∀ fuel, TermList.__init__ fuel [VList [EId "A"]] = Raise TypeError).
Proof. split_and!; [done|done|]. by intros fuel. Qed.

(** ** The theorems at concrete stores *)

(** Adoption on the scenario of the specification: B gets the [can_be] edge
    to A. *)
Lemma adopt_inverse_edges_witness :
  wf ex_store ex_heap ∧ adoptable ex_store ex_heap ∧
  ∃ h', Ontology._adopt ex_store ex_heap = Ok h' ∧
        has_edge h' (relations (get_obj h' 1)) "can_be" (EId "A").
Proof.
  assert (Hwf : wf ex_store ex_heap)
    by (apply (bool_decide_unpack _); vm_compute; exact I).
  assert (Had : adoptable ex_store ex_heap) by (repeat constructor).
  split; [exact Hwf|]. split; [exact Had|].
  destruct (adopt_inverse_edges ex_store ex_heap Hwf Had)
    as (h' & Hadopt & _ & Hedge & _).
  exists h'. split; [exact Hadopt|].
  apply (Hedge "A" 0 "is_a" "can_be" "B" 1); [reflexivity|left| |reflexivity].
  eexists. split; [reflexivity|]. left.
Defined.

(** [rchildren(level=-1)] of B on the resolved scenario, whose children
    graph is acyclic. *)
Lemma rchildren_terminates_witness :
  children_are_Terms ex_resolved = true ∧ acyclic ex_resolved ∧
  ∃ fuel r, Term.rchildren fuel ex_resolved 1 (-1) true = Ok r ∧
            NoDup (elements r).
Proof.
  assert (Hac : acyclic ex_resolved).
  { exists (λ a, match a with 1 => 1 | _ => 0 end). intros self c Hc.
    destruct self as [|[|[|self]]]; simpl in Hc.
    - by apply elem_of_nil in Hc.
    - apply elem_of_cons in Hc as [[= ->]|Hc]; [lia|by apply elem_of_nil in Hc].
    - by apply elem_of_nil in Hc.
    - by apply elem_of_nil in Hc. }
  split; [reflexivity|]. split; [exact Hac|].
  destruct (rchildren_terminates ex_resolved 1 (-1) true eq_refl (or_intror Hac))
    as (fuel & r & Hr & _ & Hnd).
  exists fuel, r. split; [apply Hr; lia|exact Hnd].
Defined.

(** Resolution on the scenario of the specification. *)
Lemma reference_endpoints_are_Terms_witness :
  wf ex_store ex_heap ∧ ∃ h', Ontology._reference ex_store ex_heap = Ok h'.
Proof.
  assert (Hwf : wf ex_store ex_heap)
    by (apply (bool_decide_unpack _); vm_compute; exact I).
  split; [exact Hwf|].
  destruct (reference_endpoints_are_Terms ex_store ex_heap Hwf) as (h' & Href & _).
  exists h'. exact Href.
Defined.

(** Resolution twice on the adopted scenario. *)
Lemma reference_idempotent_witness :
  wf ex_store ex_adopted ∧
  ∃ h1, Ontology._reference ex_store ex_adopted = Ok h1 ∧
        Ontology._reference ex_store h1 = Ok h1.
Proof.
  assert (Hwf : wf ex_store ex_adopted)
    by (apply (bool_decide_unpack _); vm_compute; exact I).
  split; [exact Hwf|]. exact (reference_idempotent ex_store ex_adopted Hwf).
Defined.

(** Serialization of the adopted scenario after resolution. *)
Lemma json_dereferenced_witness :
  wf ex_store ex_adopted ∧
  ∃ h' fields, Ontology._reference ex_store ex_adopted = Ok h' ∧
               Ontology.json ex_store h' = Ok (JObj fields).
Proof.
  assert (Hwf : wf ex_store ex_adopted)
    by (apply (bool_decide_unpack _); vm_compute; exact I).
  split; [exact Hwf|].
  destruct (json_dereferenced ex_store ex_adopted Hwf)
    as (h' & fields & Href & Hjson & _).
  exists h', fields. split; [exact Href|exact Hjson].
Defined.

(** The two placeholders returned for A are different objects. *)
Lemma rchildren_distinct_objects_witness :
  Term.rchildren 3 twin_resolved 0 (-1) true = Ok (TermList [ERef 1; ERef 2]) ∧
  ERef 1 ≠ ERef 2.
Proof.
  split; [reflexivity|].
  apply (proj2 (rchildren_distinct_objects 3 twin_resolved 0 (-1) true
                  (TermList [ERef 1; ERef 2]) eq_refl) 0 1);
    [reflexivity|reflexivity|lia].
Defined.

(** The dangling identifier X of the scenario: a placeholder after
    resolution, and still no key of the store. *)
Lemma getitem_not_found_witness :
  wf ex_store ex_heap ∧
  ("X" ∉ dict_keys (terms ex_store)) ∧
  ∃ h' (ys : list endpoint) b, Ontology._reference ex_store ex_heap = Ok h' ∧
             ys !! 1 = Some (ERef b) ∧
             objs h' !! b = Some (Term.__init__ "X" "" "") ∧
             Ontology.__getitem__ ex_store (EId "X") = Raise KeyError.
Proof.
  assert (Hwf : wf ex_store ex_heap)
    by (apply (bool_decide_unpack _); vm_compute; exact I).
  assert (Habsent : "X" ∉ dict_keys (terms ex_store))
    by (apply (bool_decide_unpack _); vm_compute; exact I).
  split; [exact Hwf|]. split; [exact Habsent|].
  destruct (proj2 (getitem_not_found ex_store ex_heap "X" Hwf)
              "A" 0 "is_a" (PyList [EId "B"; EId "X"]) 1
              eq_refl eq_refl eq_refl Habsent)
    as (h' & ys & b & Href & _ & Hys & Hobj & _ & Hget).
  exists h', ys, b. repeat split; assumption.
Defined.

(** [TermList((t0, t1))] and [TermList(t0)] for two [Term]s. *)
Lemma TermList_single_argument_witness :
  TermList.assign_terms [VTuple [ERef 0; ERef 1]] = None ∧
  TermList.__init__ 1000 [VTuple [ERef 0; ERef 1]] = OutOfFuel ∧
  TermList.__init__ 1000 [VElem (ERef 0)] = OutOfFuel.
Proof.
  destruct (TermList_single_argument (VTuple [ERef 0; ERef 1]))
    as (Hnone & _ & Hinit & _); [discriminate|discriminate|].
  destruct (TermList_single_argument (VElem (ERef 0)))
    as (_ & _ & Hinit' & _); [discriminate|discriminate|].
  split; [exact Hnone|]. split; [apply Hinit|apply Hinit'].
Defined.

(** * Further properties of the code *)

(** ** Sorted accessions and the order of insertion *)

Global Instance key_le_trans {V} : Transitive (@key_le V).
Proof. intros x y z Hxy Hyz. unfold key_le in *. by etrans. Qed.

Lemma key_le_total {V} (e e' : string * V) :
  String.leb e.1 e'.1 = false → key_le e' e.
Proof.
  intros Hf. unfold key_le, String.le.
  destruct (String.leb_total e.1 e'.1) as [H|H]; [congruence|by rewrite H].
Qed.

Lemma insert_sorted_Sorted {V} (e : string * V) l :
  Sorted key_le l → Sorted key_le (insert_sorted e l).
Proof.
  induction 1 as [|e' l Hl IH Hhd]; simpl.
  - by repeat constructor.
  - destruct (String.leb e.1 e'.1) eqn:Hle.
    + constructor; [by constructor|]. constructor.
      unfold key_le, String.le. by rewrite Hle.
    + constructor; [done|].
      destruct l as [|e'' l]; simpl in *.
      * constructor. by apply key_le_total.
      * destruct (String.leb e.1 e''.1).
        -- constructor. by apply key_le_total.
        -- constructor. by apply HdRel_inv in Hhd.
Qed.

Lemma sort_items_Sorted {V} (l : list (string * V)) : Sorted key_le (sort_items l).
Proof.
  induction l as [|e l IH]; simpl; [constructor|].
  by apply insert_sorted_Sorted.
Qed.

Lemma dict_unique {V} (l : list (string * V)) e e' :
  NoDup l.*1 → e ∈ l → e' ∈ l → e.1 = e'.1 → e = e'.
Proof.
  intros Hnd He He' Hk. destruct e as [k v], e' as [k' v']. simpl in Hk. subst k'.
  pose proof (dict_get_elem _ _ _ Hnd He) as H1.
  pose proof (dict_get_elem _ _ _ Hnd He') as H2. congruence.
Qed.

(** Two lists of the same items with pairwise different keys sort to the
    same list. *)
Lemma sort_items_perm_eq {V} (l1 l2 : list (string * V)) :
  NoDup l1.*1 → l1 ≡ₚ l2 → sort_items l1 = sort_items l2.
Proof.
  intros Hnd Hp.
  apply (Sorted_unique_strong key_le); [| apply sort_items_Sorted..|].
  - intros x1 x2 Hx1 Hx2 H12 H21.
    rewrite sort_items_perm in Hx1. rewrite sort_items_perm, <- Hp in Hx2.
    apply (dict_unique l1); [done..|].
    unfold key_le in *. by apply (anti_symm String.le).
  - by rewrite !sort_items_perm.
Qed.

Lemma dict_get_perm {V} (l1 l2 : list (string * V)) k :
  NoDup l1.*1 → l1 ≡ₚ l2 → dict_get k l1 = dict_get k l2.
Proof.
  intros Hnd Hp. assert (Hnd2 : NoDup l2.*1) by by rewrite <- Hp.
  destruct (dict_get k l1) as [v|] eqn:H1.
  - apply dict_get_Some_elem in H1. rewrite Hp in H1.
    symmetry. by apply dict_get_elem.
  - symmetry. apply dict_get_None. apply dict_get_None in H1. by rewrite <- Hp.
Qed.

Lemma omap_dict_get {V} (l m : list (string * V)) :
  Forall (λ e, dict_get e.1 l = Some e.2) m →
  omap (λ k, dict_get k l) m.*1 = m.*2.
Proof.
  induction 1 as [|e m He _ IH]; [done|]. csimpl. by rewrite He, IH.
Qed.

Lemma iter_sorted_values self :
  NoDup (terms self).*1 →
  Ontology.__iter__ self = (sort_items (terms self)).*2.
Proof.
  intros Hnd. unfold Ontology.__iter__, dict_keys. apply omap_dict_get.
  apply Forall_forall. intros [k a] Hin. rewrite sort_items_perm in Hin.
  by apply dict_get_elem.
Qed.

(** X1.  Iterating an ontology visits every term of the store exactly once,
    in ascending order of the accessions: the terms visited are the values
    of a sorted rearrangement of the items of [Ontology.terms], and there are
    [len(ontology)] of them. *)
Theorem iter_sorted_once (self : Ontology) :
  NoDup (terms self).*1 →
  ∃ items, items ≡ₚ terms self ∧ Sorted key_le items ∧
           Ontology.__iter__ self = items.*2 ∧
           length (Ontology.__iter__ self) = Ontology.__len__ self.
Proof.
  intros Hnd. exists (sort_items (terms self)).
  split_and!; [apply sort_items_perm|apply sort_items_Sorted|
               by apply iter_sorted_values|].
  rewrite iter_sorted_values by done.
  unfold Ontology.__len__. by rewrite length_fmap, sort_items_perm.
Qed.

Lemma foldlM_ext {A B} (f g : A → B → outcome A) l :
  (∀ a x, f a x = g a x) → ∀ a, foldlM f a l = foldlM g a l.
Proof.
  intros Hfg. induction l as [|x l IH]; intros a; simpl; [done|].
  rewrite Hfg. destruct (g a x); simpl; [apply IH|done|done].
Qed.

Lemma dict_in_perm {V} (l1 l2 : list (string * V)) k :
  NoDup l1.*1 → l1 ≡ₚ l2 → dict_in k l1 = dict_in k l2.
Proof. intros Hnd Hp. unfold dict_in. by rewrite (dict_get_perm l1 l2). Qed.

Lemma getitem_perm self self' item :
  NoDup (terms self).*1 → terms self ≡ₚ terms self' →
  Ontology.__getitem__ self item = Ontology.__getitem__ self' item.
Proof.
  intros Hnd Hp. destruct item as [s|a]; simpl; [|done].
  by rewrite (dict_get_perm _ _ s Hnd Hp).
Qed.

Lemma contains_perm self self' h item :
  NoDup (terms self).*1 → terms self ≡ₚ terms self' →
  Ontology.__contains__ self h item = Ontology.__contains__ self' h item.
Proof.
  intros Hnd Hp. destruct item as [[s|a]|l|l|l]; simpl; try done.
  - by rewrite (dict_in_perm _ _ s Hnd Hp).
  - by rewrite (dict_in_perm _ _ _ Hnd Hp).
Qed.

Lemma iter_perm self self' :
  NoDup (terms self).*1 → terms self ≡ₚ terms self' →
  Ontology.__iter__ self = Ontology.__iter__ self'.
Proof.
  intros Hnd Hp. rewrite !iter_sorted_values; [|by rewrite <- Hp|done].
  by rewrite (sort_items_perm_eq _ _ Hnd Hp).
Qed.

(** X2.  The order in which the terms were inserted in the store does not
    matter to lookup, membership, iteration, adoption and the two
    serializations: two stores with the same items in a different order give
    the same results on the same heap. *)
Theorem insertion_order_irrelevant (self self' : Ontology) (h : Heap)
    (RSHIPS : list string) :
  NoDup (terms self).*1 → terms self ≡ₚ terms self' →
  (∀ item, Ontology.__getitem__ self item = Ontology.__getitem__ self' item) ∧
  (∀ item, Ontology.__contains__ self h item = Ontology.__contains__ self' h item) ∧
  Ontology.__iter__ self = Ontology.__iter__ self' ∧
  Ontology._adopt self h = Ontology._adopt self' h ∧
  Ontology.json self h = Ontology.json self' h ∧
  Ontology.obo RSHIPS self h = Ontology.obo RSHIPS self' h.
Proof.
  intros Hnd Hp. split_and!.
  - intros item. by apply getitem_perm.
  - intros item. by apply contains_perm.
  - by apply iter_perm.
  - unfold Ontology._adopt, Ontology.relationships.
    rewrite (iter_perm _ _ Hnd Hp). apply foldlM_ext.
    intros g [[parent rel] child]. unfold Ontology.adopt_edge.
    rewrite (contains_perm self self' g _ Hnd Hp).
    destruct (Ontology.__contains__ self' g (VElem parent)) as [[|]| |]; simpl; try done.
    by rewrite (getitem_perm self self' parent Hnd Hp).
  - unfold Ontology.json. by rewrite (sort_items_perm_eq _ _ Hnd Hp).
  - unfold Ontology.obo. by rewrite (iter_perm _ _ Hnd Hp).
Qed.

(** X3.  The membership test agrees with lookup on identifiers: [s in
    ontology] is true exactly when [ontology[s]] returns, false exactly when
    it raises [KeyError].  A [Term] is tested by its [id], although a [Term]
    used as subscript always raises [KeyError]; any other operand raises
    [TypeError]. *)
Theorem contains_agrees_with_getitem (self : Ontology) (h : Heap) :
  (∀ s, Ontology.__contains__ self h (VElem (EId s)) = Ok true ↔
        ∃ a, Ontology.__getitem__ self (EId s) = Ok a) ∧
  (∀ s, Ontology.__contains__ self h (VElem (EId s)) = Ok false ↔
        Ontology.__getitem__ self (EId s) = Raise KeyError) ∧
  (∀ a, Ontology.__contains__ self h (VElem (ERef a)) =
          Ontology.__contains__ self h (VElem (EId (id (get_obj h a)))) ∧
        Ontology.__getitem__ self (ERef a) = Raise KeyError) ∧
  (∀ v, (∀ x, v ≠ VElem x) → Ontology.__contains__ self h v = Raise TypeError).
Proof.
  split_and!.
  - intros s. simpl. unfold dict_in.
    destruct (dict_get s (terms self)) as [a|]; simpl; split; intros H;
      try done; [by exists a|by destruct H].
  - intros s. simpl. unfold dict_in.
    destruct (dict_get s (terms self)) as [a|]; simpl; split; intros H; done.
  - done.
  - intros v Hv. destruct v as [x|l|l|l]; [by destruct (Hv x)|done..].
Qed.

Lemma check_is_Term l :
  forallb (λ term, bool_decide (is_Some (as_Term term))) (VElem <$> l) =
  forallb is_Term l.
Proof.
  induction l as [|[s|a] l IH]; csimpl; [done|done|]. by rewrite IH.
Qed.

(** X4.  The constructor of [TermList] checks its content, whatever the
    bound on the attribute lookup.  Without argument it gives the empty
    list; on one list or one set it returns the elements when all of them
    are [Term]s and raises [TypeError] otherwise; on two or more arguments
    it returns them in order when all are [Term]s and raises [TypeError]
    when one of them is not (an identifier, or a list of [Term]s). *)
Theorem TermList_constructor_checks (fuel : nat) :
  TermList.__init__ fuel [] = Ok (TermList []) ∧
  (∀ l, TermList.__init__ fuel [VList l] =
        if forallb is_Term l then Ok (TermList l) else Raise TypeError) ∧
  (∀ l, TermList.__init__ fuel [VSet l] =
        if forallb is_Term l then Ok (TermList l) else Raise TypeError) ∧
  (∀ x1 x2 xs,
     TermList.__init__ fuel (VElem <$> (x1 :: x2 :: xs)) =
     if forallb is_Term (x1 :: x2 :: xs) then Ok (TermList (x1 :: x2 :: xs))
     else Raise TypeError) ∧
  (∀ v1 v2 vs v, v ∈ v1 :: v2 :: vs → (∀ a, v ≠ VElem (ERef a)) →
     TermList.__init__ fuel (v1 :: v2 :: vs) = Raise TypeError).
Proof.
  assert (Hcoll : ∀ l (inst : list pyval), inst = VElem <$> l →
            (ts ← Ok inst;
             if forallb (λ term, bool_decide (is_Some (as_Term term))) ts
             then Ok tt else Raise TypeError) ≫=
            (λ _, Ok (TermList (omap as_Term inst))) =
            if forallb is_Term l then Ok (TermList l) else Raise TypeError).
  { intros l inst ->. simpl. rewrite check_is_Term.
    destruct (forallb is_Term l) eqn:Hall; simpl; [|done].
    rewrite omap_as_Term; [done|].
    apply Forall_forall. intros y Hy%list_elem_of_In.
    by apply (proj1 (forallb_forall _ _) Hall). }
  split_and!.
  - done.
  - intros l. by apply (Hcoll l).
  - intros l. by apply (Hcoll l).
  - intros x1 x2 xs. by apply (Hcoll (x1 :: x2 :: xs)).
  - intros v1 v2 vs v Hin Hv.
    assert (Hassign : TermList.assign_terms (v1 :: v2 :: vs) = Some (v1 :: v2 :: vs))
      by by destruct v1.
    unfold TermList.__init__, TermList._check_content. rewrite Hassign.
    assert (Hf : forallb (λ term, bool_decide (is_Some (as_Term term)))
                   (v1 :: v2 :: vs) = false).
    { apply not_true_is_false. intros Hall.
      rewrite forallb_forall in Hall. apply list_elem_of_In, Hall in Hin.
      apply bool_decide_eq_true in Hin as [y Hy].
      destruct v as [[s|a]|l|l|l]; try done. by destruct (Hv a). }
    simpl. simpl in Hf. by rewrite Hf.
Qed.

(** ** What [rchildren] returns *)

Lemma hops_S h k a c :
  (1 ≤ k)%nat → hops h (S k) a c ↔ ∃ b, child h a b ∧ hops h k b c.
Proof. destruct k as [|k]; [lia|done]. Qed.

Lemma extend_with_elem rec cs : ∀ acc rc,
  foldlM (extend_with rec) acc cs = Ok rc →
  (∀ c, ERef c ∈ cs → ∃ r, rec c = Ok r) ∧
  ∀ x, x ∈ rc ↔ x ∈ acc ∨ ∃ c r, ERef c ∈ cs ∧ rec c = Ok r ∧ x ∈ elements r.
Proof.
  induction cs as [|child cs IH]; intros acc rc Hfold.
  - injection Hfold as <-. split.
    + by intros c ?%elem_of_nil.
    + intros x. split; [by left|]. intros [?|(c & r & ?%elem_of_nil & _)]; done.
  - rewrite foldlM_cons in Hfold. destruct child as [s|b]; [done|]. simpl in Hfold.
    destruct (rec b) as [rb| |] eqn:Hb; simpl in Hfold; [|done|done].
    apply IH in Hfold as [Hall Hmem]. split.
    + intros c [[= ->]|Hc]%elem_of_cons; [by eexists|by apply Hall].
    + intros x. rewrite Hmem, elem_of_app. split.
      * intros [[?|?]|(c & r & Hc & Hr & Hx)]; [by left| |].
        -- right. exists b, rb. split_and!; [left|done|done].
        -- right. exists c, r. split_and!; [by right|done|done].
      * intros [?|(c & r & [[= ->]|Hc]%elem_of_cons & Hr & Hx)].
        -- by left; left.
        -- left; right. congruence.
        -- right. by exists c, r.
Qed.

Lemma rchildren_elem fuel h im : ∀ a level r,
  Term.rchildren fuel h a level im = Ok r →
  ∀ c, ERef c ∈ elements r ↔
    if im
    then ∃ k, (1 ≤ k)%nat ∧ ((level < 0)%Z ∨ (Z.of_nat k ≤ level)%Z) ∧ hops h k a c
    else (0 < level)%Z ∧ hops h (Z.to_nat level) a c.
Proof.
  induction fuel as [|fuel IH]; intros a level r Hr c; [done|].
  rewrite rchildren_step in Hr. case_bool_decide as Hlevel.
  { injection Hr as <-. simpl. split; [by intros ?%elem_of_nil|].
    destruct im; [intros (k & ? & ? & _); lia|intros [? _]; lia]. }
  destruct (foldlM _ _ _) as [rc| |] eqn:Hrc; simpl in Hr; [|done|done].
  apply TermList_init_set_inv in Hr as [-> _]. simpl.
  rewrite elem_of_remove_dups.
  apply extend_with_elem in Hrc as [Hall Hmem]. rewrite Hmem. clear Hmem.
  fold (child h a c). destruct im; simpl.
  - split.
    + intros [Hc|(b & rb & Hb & Hrb & Hin)].
      * exists 1. split_and!; [lia|lia|done].
      * apply (IH _ _ _ Hrb) in Hin as (k & Hk & Hbound & Hhops).
        exists (S k). split_and!; [lia|lia|]. apply hops_S; [done|]. by exists b.
    + intros (k & Hk & Hbound & Hhops).
      destruct k as [|[|k]]; [lia|by left|right].
      apply hops_S in Hhops as (b & Hb & Hhops); [|lia].
      destruct (Hall b Hb) as [rb Hrb]. exists b, rb. split_and!; [done..|].
      apply (IH _ _ _ Hrb). exists (S k). split_and!; [lia|lia|done].
  - split.
    + intros [Hc|(b & rb & Hb & Hrb & Hin)].
      * case_bool_decide as H1; [|by apply elem_of_nil in Hc].
        subst level. split; [lia|done].
      * apply (IH _ _ _ Hrb) in Hin as [Hpos Hhops].
        split; [lia|].
        replace (Z.to_nat level) with (S (Z.to_nat (level - 1))) by lia.
        apply hops_S; [lia|]. by exists b.
    + intros [Hpos Hhops].
      destruct (decide (level = 1%Z)) as [->|Hne].
      * left. by rewrite bool_decide_eq_true_2.
      * right.
        replace (Z.to_nat level) with (S (Z.to_nat (level - 1))) in Hhops by lia.
        apply hops_S in Hhops as (b & Hb & Hhops); [|lia].
        destruct (Hall b Hb) as [rb Hrb]. exists b, rb. split_and!; [done..|].
        apply (IH _ _ _ Hrb). split; [lia|done].
Qed.

(** X5.  What [rchildren] returns is decided by the steps from a term to a
    child.  With [intermediate=True] the result holds exactly the [Term]s
    reached in at least one step and, for a bound [level >= 0], at most
    [level] steps (any number for a negative [level]).  With
    [intermediate=False] it holds exactly the [Term]s reached in exactly
    [level] steps, so nothing for a negative [level]. *)
Theorem rchildren_reaches (fuel : nat) (h : Heap) (a : addr) (level : Z)
    (intermediate : bool) (r : relval) :
  Term.rchildren fuel h a level intermediate = Ok r →
  Forall (λ y, is_Term y = true) (elements r) ∧
  ∀ c, ERef c ∈ elements r ↔
    if intermediate
    then ∃ k, (1 ≤ k)%nat ∧ ((level < 0)%Z ∨ (Z.of_nat k ≤ level)%Z) ∧ hops h k a c
    else (0 < level)%Z ∧ hops h (Z.to_nat level) a c.
Proof.
  intros Hr. split; [by apply rchildren_Ok in Hr as [? _]|].
  by apply (rchildren_elem fuel).
Qed.



Lemma rchildren_TermList fuel h a level im r :
  level ≠ 0%Z → Term.rchildren fuel h a level im = Ok r →
  r = TermList (elements r).
Proof.
  intros Hlevel. destruct fuel as [|fuel]; [done|]. rewrite rchildren_step.
  rewrite bool_decide_eq_false_2 by done.
  destruct (foldlM _ _ _) as [rc| |]; simpl; [|done|done].
  by intros [-> _]%TermList_init_set_inv.
Qed.

(** X7.  With [intermediate=False] and no bound ([level=-1], or any negative
    [level]) [rchildren] collects nothing: on an acyclic graph of [Term]s it
    returns, and what it returns is the empty [TermList], however many
    descendants the term has. *)
Theorem rchildren_frontier_unbounded_is_empty (h : Heap) (self : addr) (level : Z) :
  children_are_Terms h = true → acyclic h → (level < 0)%Z →
  ∃ fuel, ∀ fuel', (fuel ≤ fuel')%nat →
    Term.rchildren fuel' h self level false = Ok (TermList []).
Proof.
  intros Hterms [rank Hrank] Hlevel.
  destruct (rchildren_returns h (λ _ _, True) (λ s _, rank s) false Hterms)
    with (fuel := S (rank self)) (self := self) (level := level) as [r Hr];
    [|done|lia|].
  { intros s l c _ _ Hc. split; [done|by apply Hrank]. }
  exists (S (rank self)). intros fuel' Hle.
  apply (rchildren_fuel_mono _ _ _ fuel') in Hr; [|done]. rewrite Hr. f_equal.
  assert (Hne : level ≠ 0%Z) by lia.
  rewrite (rchildren_TermList _ _ _ _ _ _ Hne Hr). f_equal.
  pose proof (rchildren_Ok _ _ _ _ _ _ Hr) as [Hall _].
  pose proof (rchildren_elem _ _ _ _ _ _ Hr) as Hmem. simpl in Hmem.
  destruct (elements r) as [|[s|c] l]; [done| |].
  - by apply Forall_cons in Hall as [? _].
  - destruct (proj1 (Hmem c)) as [? _]; [left|lia].
Qed.

(** ** What adoption writes *)

Lemma endpoints_at_set_rel_eq h d k v :
  d < length (dicts h) → endpoints_at (set_rel h d k v) d k = elements v.
Proof.
  intros Hd. unfold endpoints_at.
  by rewrite get_dict_set_rel_eq, dict_get_set_eq.
Qed.

Lemma dict_get_set_rel_other h d k v d' k' :
  d < length (dicts h) → ¬ (d = d' ∧ k = k') →
  dict_get k' (get_dict (set_rel h d k v) d') = dict_get k' (get_dict h d').
Proof.
  intros Hd Hne. destruct (decide (d = d')) as [<-|Hd'].
  - rewrite get_dict_set_rel_eq, dict_get_set_ne; [done| |done].
    intros ->. by apply Hne.
  - by rewrite get_dict_set_rel_ne.
Qed.

Lemma adopt_edge_exact self h parent rel child :
  store_dicts_allocated self h →
  adoptable_parent self h parent →
  ∃ h', Ontology.adopt_edge self h (parent, rel, child) = Ok h' ∧
        objs h' = objs h ∧
        parents_cache h' = parents_cache h ∧
        length (dicts h') = length (dicts h) ∧
        (∀ d k, k ≠ rel →
           dict_get k (get_dict h' d) = dict_get k (get_dict h d)) ∧
        (∀ d k, endpoints_at h' d k =
                endpoints_at h d k ++
                option_list (appended_by self h d k (parent, rel, child))).
Proof.
  intros Halloc Hpar. unfold appended_by. cbn [fst snd]. destruct parent as [P|a].
  - destruct (dict_get P (terms self)) as [ap|] eqn:HP.
    + unfold Ontology.adopt_edge. simpl.
      replace (dict_in P (terms self)) with true
        by (symmetry; apply dict_in_spec; rewrite HP; eauto).
      simpl. rewrite HP. simpl.
      set (dP := relations (get_obj h ap)).
      assert (Hd : dP < length (dicts h)) by by eapply Halloc.
      set (h1 := if dict_in rel (get_dict h dP) then h
                 else set_rel h dP rel (TermList [])).
      assert (H1 : objs h1 = objs h ∧ parents_cache h1 = parents_cache h ∧
                   length (dicts h1) = length (dicts h) ∧
                   (∀ d k, ¬ (dP = d ∧ rel = k) →
                      dict_get k (get_dict h1 d) = dict_get k (get_dict h d)) ∧
                   ∃ v, dict_get rel (get_dict h1 dP) = Some v ∧
                        elements v = endpoints_at h dP rel).
      { subst h1. unfold endpoints_at.
        destruct (dict_in rel (get_dict h dP)) eqn:Hin.
        - apply dict_in_spec in Hin as [v Hv].
          split_and!; [done..|]. exists v. by rewrite Hv.
        - assert (Hnone : dict_get rel (get_dict h dP) = None).
          { destruct (dict_get rel (get_dict h dP)) eqn:E; [|done].
            apply not_true_iff_false in Hin. exfalso. apply Hin.
            apply dict_in_spec. rewrite E. eauto. }
          split_and!; [done|done|by simpl; rewrite length_insert| |].
          + intros d k Hne. by apply dict_get_set_rel_other.
          + exists (TermList []).
            by rewrite get_dict_set_rel_eq, dict_get_set_eq, Hnone. }
      destruct H1 as (Ho1 & Hc1 & Hl1 & Hother1 & v & Hv & Hvel).
      rewrite Hv. eexists. split; [done|].
      assert (Hd1 : dP < length (dicts h1)) by lia.
      split_and!; [done|done|by simpl; rewrite length_insert| |].
      * intros d k Hk. rewrite dict_get_set_rel_other; [|done|by intros [_ ->]].
        apply Hother1. by intros [_ ->].
      * intros d k. case_bool_decide as Hdk.
        -- destruct Hdk as [<- <-]. rewrite endpoints_at_set_rel_eq by done.
           simpl. rewrite <- Hvel. by destruct v.
        -- simpl. rewrite app_nil_r. unfold endpoints_at.
           rewrite dict_get_set_rel_other by done. by rewrite Hother1.
    + rewrite adopt_edge_absent by done. exists h.
      split_and!; [done..|]. intros d k. simpl. by rewrite app_nil_r.
  - simpl in Hpar. unfold Ontology.adopt_edge. simpl. rewrite Hpar.
    exists h. split_and!; [done..|]. intros d k. simpl. by rewrite app_nil_r.
Qed.

Lemma appended_by_objs self h h' d k edge :
  objs h' = objs h → appended_by self h' d k edge = appended_by self h d k edge.
Proof.
  intros Ho. unfold appended_by. destruct edge.1.1; [|done].
  destruct (dict_get s (terms self)); [|done].
  by rewrite (get_obj_objs_eq _ _ _ Ho).
Qed.

Lemma omap_pointwise {A B} (f g : A → option B) (l : list A) :
  (∀ x, f x = g x) → omap f l = omap g l.
Proof.
  intros Hfg. induction l as [|x l IH]; [done|]. csimpl. by rewrite Hfg, IH.
Qed.

Lemma adopt_fold_exact self edges : ∀ h,
  store_dicts_allocated self h →
  Forall (λ edge, adoptable_parent self h edge.1.1) edges →
  ∃ h', foldlM (Ontology.adopt_edge self) h edges = Ok h' ∧
        objs h' = objs h ∧
        parents_cache h' = parents_cache h ∧
        length (dicts h') = length (dicts h) ∧
        (∀ d k, k ∉ edges.*1.*2 →
           dict_get k (get_dict h' d) = dict_get k (get_dict h d)) ∧
        (∀ d k, endpoints_at h' d k =
                endpoints_at h d k ++ omap (appended_by self h d k) edges).
Proof.
  induction edges as [|[[parent rel] child] edges IH]; intros h Halloc Hedges.
  - exists h. split_and!; [done..|]. intros d k. simpl. by rewrite app_nil_r.
  - apply Forall_cons in Hedges as [Hpar Hedges]. simpl in Hpar.
    destruct (adopt_edge_exact self h parent rel child Halloc Hpar)
      as (h1 & Hstep & Ho1 & Hc1 & Hl1 & Hother1 & Hex1).
    destruct (IH h1) as (h' & Hfold & Ho' & Hc' & Hl' & Hother' & Hex').
    { intros key a Hkey. rewrite Hl1, (get_obj_objs_eq _ _ _ Ho1).
      by eapply Halloc. }
    { eapply Forall_impl; [exact Hedges|]. intros [[p r] c]. simpl.
      destruct p; [done|]. simpl. by rewrite (get_obj_objs_eq _ _ _ Ho1). }
    exists h'. rewrite foldlM_cons, Hstep. simpl.
    split_and!; [done|congruence|congruence|congruence| |].
    + intros d k Hk. csimpl in Hk. apply not_elem_of_cons in Hk as [Hk1 Hk2].
      rewrite Hother' by done. by apply Hother1.
    + intros d k. rewrite Hex', Hex1, <- app_assoc. f_equal.
      rewrite (omap_pointwise (appended_by self h1 d k) (appended_by self h d k))
        by (intros e; by apply appended_by_objs).
      csimpl. by destruct (appended_by self h d k (parent, rel, child)).
Qed.

Lemma relationships_kinds self h edge :
  edge ∈ Ontology.relationships self h →
  edge.1.2 ∈ ["can_be"; "has_part"; "part_of"].
Proof.
  unfold Ontology.relationships. intros (a & Hin & _)%list_elem_of_bind.
  assert (Hf : ∀ kind rel, edge ∈ Ontology.forward h a kind rel → edge.1.2 = rel).
  { intros kind rel. unfold Ontology.forward.
    destruct (dict_get kind _); [|by intros ?%elem_of_nil].
    by intros (x & -> & _)%list_elem_of_fmap. }
  rewrite !elem_of_app in Hin.
  destruct Hin as [Hin|[Hin|Hin]]; apply Hf in Hin; rewrite Hin.
  - left. - right; left. - right; right; left.
Qed.

(** X8.  Adoption only appends, and it does not deduplicate.  It creates
    and changes no [Term] and leaves the cache of [parents] alone; every
    kind other than [can_be], [has_part] and [part_of] keeps its value in
    every dictionary; and the list under each kind of each dictionary is the
    list it was, followed by one identifier for every forward edge to a key
    of the store whose term has that dictionary: in the order the edges are
    met (terms in sorted order of the accessions; [is_a], [part_of],
    [is_part] for each term; the order of the list for each kind), and once
    for every occurrence. *)
Theorem adopt_appends_in_order (self : Ontology) (h : Heap) :
  wf self h → adoptable self h →
  ∃ h', Ontology._adopt self h = Ok h' ∧
    objs h' = objs h ∧
    parents_cache h' = parents_cache h ∧
    (∀ d k, k ∉ ["can_be"; "has_part"; "part_of"] →
       dict_get k (get_dict h' d) = dict_get k (get_dict h d)) ∧
    (∀ d k, endpoints_at h' d k =
            endpoints_at h d k ++
            omap (appended_by self h d k) (Ontology.relationships self h)).
Proof.
  intros Hwf Hadopt.
  destruct (adopt_fold_exact self (Ontology.relationships self h) h
              (wf_store_dicts self h Hwf) Hadopt)
    as (h' & Hfold & Ho & Hc & _ & Hother & Hexact).
  exists h'. split_and!; [done..| |done].
  intros d k Hk. apply Hother. intros Hin. apply Hk.
  apply list_elem_of_fmap in Hin as (e1 & -> & Hin).
  apply list_elem_of_fmap in Hin as (e & -> & Hin).
  by apply (relationships_kinds self h).
Qed.

(** ** Reference resolution never raises *)

Lemma allocates_refl self h : allocates_placeholders self h h.
Proof. exists []. by rewrite app_nil_r. Qed.

Lemma allocates_trans self h1 h2 h3 :
  allocates_placeholders self h1 h2 → allocates_placeholders self h2 h3 →
  allocates_placeholders self h1 h3.
Proof.
  intros (n1 & Ho1 & Hp1 & Hc1 & Hl1) (n2 & Ho2 & Hp2 & Hc2 & Hl2).
  exists (n1 ++ n2). split_and!; [|by apply Forall_app|congruence|congruence].
  by rewrite Ho2, Ho1, app_assoc.
Qed.

Lemma resolve_allocates self h x y h' :
  Ontology.resolve self h x = (y, h') → allocates_placeholders self h h'.
Proof.
  unfold Ontology.resolve. destruct x as [s|a].
  - destruct (dict_get s (terms self)) as [a|] eqn:Hs; simpl.
    + intros [= <- <-]. apply allocates_refl.
    + intros [= <- <-]. exists [Term.__init__ s "" ""]. split_and!; [done| |done..].
      constructor; [|done]. exists s. split; [|done]. by apply dict_get_None.
  - intros [= <- <-]. apply allocates_refl.
Qed.

Lemma resolve_all_allocates self l : ∀ h ys h',
  Ontology.resolve_all self h l = (ys, h') → allocates_placeholders self h h'.
Proof.
  induction l as [|x l IH]; intros h ys h'; simpl.
  - intros [= <- <-]. apply allocates_refl.
  - destruct (Ontology.resolve self h x) as [y h1] eqn:Hx.
    destruct (Ontology.resolve_all self h1 l) as [ys' h2] eqn:Hl.
    intros [= <- <-]. eapply allocates_trans.
    + by eapply resolve_allocates.
    + by eapply IH.
Qed.

Lemma reference_relation_total self d h item :
  ∃ h', Ontology.reference_relation self d h item = Ok h' ∧
        allocates_placeholders self h h'.
Proof.
  destruct item as [k v].
  destruct (reference_relation_spec self h d k v) as (h' & ys & Hstep & _ & _ & Hd & _).
  exists h'. split; [done|].
  unfold Ontology.reference_relation in Hstep.
  destruct (Ontology.resolve_all self h (elements v)) as [ys' h1] eqn:Hl.
  apply resolve_all_allocates in Hl as (news & Ho & Hp & Hc & Hlen).
  destruct (TermList.__init__ 0 [VList ys']) as [tl| |]; simpl in Hstep; [|done..].
  injection Hstep as <-. exists news. simpl.
  split_and!; [done..|]. by rewrite length_insert.
Qed.

Lemma foldlM_allocates {B} self (f : Heap → B → outcome Heap) l :
  (∀ h x, ∃ h', f h x = Ok h' ∧ allocates_placeholders self h h') →
  ∀ h, ∃ h', foldlM f h l = Ok h' ∧ allocates_placeholders self h h'.
Proof.
  intros Hf. induction l as [|x l IH]; intros h.
  - exists h. split; [done|apply allocates_refl].
  - destruct (Hf h x) as (h1 & Hx & H1). destruct (IH h1) as (h' & Hl & H2).
    exists h'. rewrite foldlM_cons, Hx. split; [done|]. by eapply allocates_trans.
Qed.

(** X9.  Reference resolution never raises: on every heap it returns.  It
    keeps every [Term] object as it is, the cache of [parents], and the
    number of dictionaries; every object it creates is a placeholder: empty
    [name] and [desc], an [id] that is no key of the store, and the shared
    dictionary of the default argument as [relations]. *)
Theorem reference_never_raises (self : Ontology) (h : Heap) :
  ∃ h' news,
    Ontology._reference self h = Ok h' ∧
    objs h' = objs h ++ news ∧
    Forall (λ t, (id t ∉ dict_keys (terms self)) ∧ name t = "" ∧ desc t = "" ∧
                 relations t = default_relations) news ∧
    parents_cache h' = parents_cache h ∧
    length (dicts h') = length (dicts h).
Proof.
  destruct (foldlM_allocates self (Ontology.reference_term self) (terms self))
    with (h := h) as (h' & Href & news & Ho & Hp & Hc & Hl).
  { intros g item. unfold Ontology.reference_term.
    apply foldlM_allocates. intros g' item'. apply reference_relation_total. }
  exists h', news. split_and!; [done..| |done|done].
  eapply Forall_impl; [exact Hp|]. by intros t (s & Hs & ->).
Qed.

(** ** Merging *)

Lemma dict_set_keys {V} k (v : V) (d : list (string * V)) :
  ((k ∈ d.*1) ∧ (dict_set k v d).*1 = d.*1) ∨
  ((k ∉ d.*1) ∧ (dict_set k v d).*1 = d.*1 ++ [k]).
Proof.
  induction d as [|[k' v'] d IH]; csimpl.
  - right. split; [apply not_elem_of_nil|done].
  - destruct (decide (k = k')) as [->|Hne]; csimpl.
    + left. split; [left|done].
    + destruct IH as [[Hin Heq]|[Hnin Heq]].
      * left. split; [by right|]. by f_equal.
      * right. split; [by apply not_elem_of_cons|]. by f_equal.
Qed.

Lemma dict_set_NoDup {V} k (v : V) d : NoDup d.*1 → NoDup (dict_set k v d).*1.
Proof.
  intros Hnd. destruct (dict_set_keys k v d) as [[_ ->]|[Hnin ->]]; [done|].
  apply NoDup_app. split_and!; [done| |apply NoDup_singleton].
  intros x Hx ->%list_elem_of_singleton. done.
Qed.

Lemma dict_set_length {V} k (v : V) d :
  (length d ≤ length (dict_set k v d) ≤ S (length d))%nat.
Proof.
  pose proof (f_equal length (eq_refl (dict_set k v d).*1)) as H.
  destruct (dict_set_keys k v d) as [[_ Heq]|[_ Heq]];
    apply (f_equal length) in Heq;
    rewrite ?length_app, !length_fmap in Heq; simpl in Heq; lia.
Qed.

Lemma dict_update_cons {V} k (v : V) e d :
  dict_update d ((k, v) :: e) = dict_update (dict_set k v d) e.
Proof. done. Qed.

Lemma dict_update_get {V} (e : list (string * V)) : ∀ d k,
  NoDup e.*1 →
  dict_get k (dict_update d e) =
  match dict_get k e with Some v => Some v | None => dict_get k d end.
Proof.
  induction e as [|[k' v'] e IH]; intros d k Hnd; [done|].
  csimpl in Hnd. apply NoDup_cons in Hnd as [Hk' Hnd].
  rewrite dict_update_cons, IH by done. simpl.
  destruct (decide (k = k')) as [->|Hne].
  - apply dict_get_None in Hk'. by rewrite Hk', dict_get_set_eq.
  - by rewrite dict_get_set_ne.
Qed.

Lemma dict_update_NoDup {V} (e : list (string * V)) : ∀ d,
  NoDup d.*1 → NoDup (dict_update d e).*1.
Proof.
  induction e as [|[k' v'] e IH]; intros d Hnd; [done|].
  rewrite dict_update_cons. apply IH. by apply dict_set_NoDup.
Qed.

Lemma dict_update_length {V} (e : list (string * V)) : ∀ d,
  (length d ≤ length (dict_update d e) ≤ length d + length e)%nat.
Proof.
  induction e as [|[k' v'] e IH]; intros d.
  - unfold dict_update. simpl. lia.
  - rewrite dict_update_cons. simpl.
    pose proof (IH (dict_set k' v' d)). pose proof (dict_set_length k' v' d). lia.
Qed.

Lemma merged_wf self other h :
  wf self h → wf other h →
  wf {| terms := dict_update (terms self) (terms other) |} h.
Proof.
  intros (H1 & H2 & H3 & H4 & H5 & H6) (_ & G2 & G3 & _).
  split_and!; [done| |  |done..]; simpl.
  - by apply dict_update_NoDup.
  - apply Forall_forall. intros [k a] Hin.
    apply dict_get_elem in Hin; [|by apply dict_update_NoDup].
    rewrite dict_update_get in Hin by done.
    destruct (dict_get k (terms other)) as [b|] eqn:Hb.
    + injection Hin as ->. apply dict_get_Some_elem in Hb.
      by apply (proj1 (Forall_forall _ _) G3 _ Hb).
    + apply dict_get_Some_elem in Hin.
      by apply (proj1 (Forall_forall _ _) H3 _ Hin).
Qed.

Lemma resolved_dict_Terms D kind v x :
  resolved_dict D → dict_get kind D = Some v → x ∈ elements v → is_Term x = true.
Proof.
  intros Hres Hget Hx. apply dict_get_Some_elem in Hget.
  pose proof (proj1 (Forall_forall _ _) Hres _ Hget) as (ys & Hv & Hys).
  simpl in Hv. subst v. by apply (proj1 (Forall_forall _ _) Hys).
Qed.

(** X10.  [merge] raises [TypeError] on an argument that is no ontology.
    On an ontology it returns, and the entries of the argument win: a key
    of the argument maps to the argument's [Term], any other key to the
    [Term] it had; the store is at least as long as it was and at most as
    long as the two together; and every relation endpoint of every term of
    the merged store is a [Term] afterwards. *)
Theorem merge_right_biased (self other : Ontology) (h : Heap) :
  wf self h → wf other h →
  (∀ v, Ontology.merge self h (inr v) = Raise TypeError) ∧
  ∃ merged h',
    Ontology.merge self h (inl other) = Ok (merged, h') ∧
    (∀ key, dict_get key (terms merged) =
            match dict_get key (terms other) with
            | Some a => Some a
            | None => dict_get key (terms self)
            end) ∧
    (Ontology.__len__ self ≤ Ontology.__len__ merged ≤
       Ontology.__len__ self + Ontology.__len__ other)%nat ∧
    (∀ key a kind v x,
       dict_get key (terms merged) = Some a →
       dict_get kind (get_dict h' (relations (get_obj h' a))) = Some v →
       x ∈ elements v → is_Term x = true).
Proof.
  intros Hwf Hwfo. split; [done|].
  pose proof (merged_wf self other h Hwf Hwfo) as Hwfm.
  destruct (reference_spec _ h Hwfm) as (h' & Href & _).
  exists {| terms := dict_update (terms self) (terms other) |}, h'.
  split; [|split; [|split]].
  - unfold Ontology.merge. by rewrite Href.
  - intros key. simpl. apply dict_update_get. by destruct Hwfo as (_ & ? & _).
  - unfold Ontology.__len__. simpl. apply dict_update_length.
  - intros key a kind v x Hkey Hkind Hx.
    pose proof (reference_resolved _ h h' Hwfm Href) as Hres.
    apply dict_get_Some_elem in Hkey.
    pose proof (proj1 (Forall_forall _ _) Hres _ Hkey) as (D & HD & _ & HresD).
    simpl in HD. rewrite (get_dict_lookup _ _ _ HD) in Hkind.
    by eapply resolved_dict_Terms.
Qed.

Lemma reference_keeps_Terms self h h' d k v j a :
  wf self h → Ontology._reference self h = Ok h' →
  dict_get k (get_dict h d) = Some v → elements v !! j = Some (ERef a) →
  ∃ v', dict_get k (get_dict h' d) = Some v' ∧ elements v' !! j = Some (ERef a).
Proof.
  intros Hwf Href Hk Hj.
  destruct (reference_spec self h Hwf) as (h1 & Href1 & Hinv & _).
  assert (h1 = h') by congruence. subst h1.
  destruct Hinv as (_ & _ & _ & Hd).
  destruct (dicts h !! d) as [D|] eqn:HD; [|by unfold get_dict in Hk; rewrite HD in Hk].
  rewrite (get_dict_lookup _ _ _ HD) in Hk.
  destruct (Hd d) as [Heq|(D0 & D' & H0 & H1 & Hall)].
  - exists v. split; [|done]. unfold get_dict. by rewrite Heq, HD.
  - assert (D0 = D) by congruence. subst D0.
    destruct (entry_resolved_get _ _ _ _ _ _ _ Hall Hk) as (ys & Hget & Hys).
    destruct (Forall2_lookup_l _ _ _ _ _ Hys Hj) as (y & Hyj & Hxy).
    simpl in Hxy. subst y. exists (TermList ys).
    by rewrite (get_dict_lookup _ _ _ H1).
Qed.

(** X11.  [merge] never replaces an endpoint that is already a [Term]: in
    every dictionary of the heap, wherever a [Term] object stood before the
    merge the same object stands after it.  In particular the placeholder
    made for a dangling identifier stays in place when the merged ontology
    defines a term with that identifier. *)
Theorem merge_keeps_Term_endpoints (self other : Ontology) (h : Heap) :
  wf self h → wf other h →
  ∃ merged h',
    Ontology.merge self h (inl other) = Ok (merged, h') ∧
    ∀ d k v j a,
      dict_get k (get_dict h d) = Some v → elements v !! j = Some (ERef a) →
      ∃ v', dict_get k (get_dict h' d) = Some v' ∧
            elements v' !! j = Some (ERef a).
Proof.
  intros Hwf Hwfo.
  pose proof (merged_wf self other h Hwf Hwfo) as Hwfm.
  destruct (reference_spec _ h Hwfm) as (h' & Href & _).
  exists {| terms := dict_update (terms self) (terms other) |}, h'.
  split; [unfold Ontology.merge; by rewrite Href|].
  intros d k v j a Hk Hj. by eapply reference_keeps_Terms.
Qed.

(** ** The two passes of [__init__] together *)

Lemma dict_set_Forall {V} (P : string * V → Prop) k v d :
  Forall P d → P (k, v) → Forall P (dict_set k v d).
Proof.
  intros Hd Hkv. induction Hd as [|[k' v'] d Hk' Hd IH]; simpl.
  - by constructor.
  - destruct (decide (k = k')); by constructor.
Qed.

Lemma get_dict_NoDup self h d : wf self h → NoDup (get_dict h d).*1.
Proof.
  intros (_ & _ & _ & _ & Hnd & _). unfold get_dict.
  destruct (dicts h !! d) as [D|] eqn:HD; simpl; [|constructor].
  by eapply (Forall_lookup_1 _ _ _ _ Hnd).
Qed.

Lemma get_dict_valid self h d :
  wf self h →
  Forall (λ kv, Forall (valid_endpoint h) (elements kv.2)) (get_dict h d).
Proof.
  intros (_ & _ & _ & _ & _ & Hval). unfold get_dict.
  destruct (dicts h !! d) as [D|] eqn:HD; simpl; [|constructor].
  by eapply (Forall_lookup_1 _ _ _ _ Hval).
Qed.

Lemma set_rel_wf self h d k v :
  wf self h → Forall (valid_endpoint h) (elements v) → wf self (set_rel h d k v).
Proof.
  intros Hwf Hv. pose proof (get_dict_NoDup self h d Hwf) as Hnd.
  pose proof (get_dict_valid self h d Hwf) as Hvalid.
  destruct Hwf as (H1 & H2 & H3 & H4 & H5 & H6).
  unfold wf. simpl. rewrite length_insert. split_and!; [done..| |].
  - apply Forall_insert; [done|]. by apply dict_set_NoDup.
  - apply Forall_insert; [done|]. by apply dict_set_Forall.
Qed.

Lemma adopt_edge_wf self h edge h' :
  wf self h → Ontology.adopt_edge self h edge = Ok h' → wf self h'.
Proof.
  intros Hwf. destruct edge as [[parent rel] child]. unfold Ontology.adopt_edge.
  destruct (Ontology.__contains__ self h (VElem parent)) as [[|]| |]; simpl;
    [|by intros [= <-]|done|done].
  destruct (Ontology.__getitem__ self parent) as [p| |]; simpl; [|done|done].
  set (d := relations (get_obj h p)).
  set (h1 := if dict_in rel (get_dict h d) then h else set_rel h d rel (TermList [])).
  assert (Hwf1 : wf self h1).
  { subst h1. destruct (dict_in rel (get_dict h d)); [done|].
    apply set_rel_wf; [done|constructor]. }
  destruct (dict_get rel (get_dict h1 d)) as [v|] eqn:Hv; [|done].
  intros [= <-]. apply set_rel_wf; [done|].
  pose proof (get_dict_valid self h1 d Hwf1) as Hvalid.
  apply dict_get_Some_elem in Hv.
  pose proof (proj1 (Forall_forall _ _) Hvalid _ Hv) as Hvv. simpl in Hvv.
  destruct v; simpl in *; apply Forall_app; by repeat constructor.
Qed.

Lemma adopt_wf self h h' :
  wf self h → Ontology._adopt self h = Ok h' → wf self h'.
Proof.
  unfold Ontology._adopt. generalize (Ontology.relationships self h).
  intros edges. revert h. induction edges as [|edge edges IH]; intros h Hwf.
  - by intros [= <-].
  - rewrite foldlM_cons.
    destruct (Ontology.adopt_edge self h edge) as [h1| |] eqn:Hstep; simpl; [|done..].
    apply IH. by eapply adopt_edge_wf.
Qed.

Lemma reference_resolves_edge self h h' key a k s t :
  wf self h → Ontology._reference self h = Ok h' →
  dict_get key (terms self) = Some a →
  has_edge h (relations (get_obj h a)) k (EId s) →
  dict_get s (terms self) = Some t →
  has_edge h' (relations (get_obj h' a)) k (ERef t).
Proof.
  intros Hwf Href Hkey (v & Hv & Hin) Hs.
  destruct (reference_spec self h Hwf) as (h1 & Href1 & Hinv & Hall).
  assert (h1 = h') by congruence. subst h1.
  destruct Hinv as (Hp & _ & _ & _).
  pose proof (wf_store_addr _ _ _ _ Hwf Hkey) as Ha.
  rewrite (get_obj_prefix _ _ _ Hp Ha).
  pose proof (proj1 (Forall_forall _ _) Hall (key, a) (dict_get_Some_elem _ _ _ Hkey))
    as (D & D' & HD & HD' & Hres).
  simpl in *. rewrite (get_dict_lookup _ _ _ HD) in Hv.
  destruct (entry_resolved_get _ _ _ _ _ _ _ Hres Hv) as (ys & Hget & Hys).
  apply list_elem_of_lookup in Hin as [j Hj].
  destruct (Forall2_lookup_l _ _ _ _ _ Hys Hj) as (y & Hyj & Hxy).
  unfold resolved_as in Hxy. rewrite Hs in Hxy. subst y.
  exists (TermList ys). rewrite (get_dict_lookup _ _ _ HD').
  split; [done|]. by eapply list_elem_of_lookup_2.
Qed.

Lemma has_edge_endpoints_under h a k x kinds :
  has_edge h (relations (get_obj h a)) k x → k ∈ kinds →
  x ∈ endpoints_under h a kinds.
Proof.
  intros (v & Hv & Hx) Hk. unfold endpoints_under.
  apply list_elem_of_bind. exists k. by rewrite Hv.
Qed.

Lemma keyed_by_id_get self h key a :
  keyed_by_id self h → dict_get key (terms self) = Some a →
  dict_get (id (get_obj h a)) (terms self) = Some a.
Proof.
  intros Hk Hget.
  pose proof (proj1 (Forall_forall _ _) Hk _ (dict_get_Some_elem _ _ _ Hget)) as Hid.
  simpl in Hid. by rewrite Hid.
Qed.

(** X12.  The two passes of [__init__] link parent and child both ways.
    When the keys of the store are the [id]s of its terms and the endpoints
    are still identifiers, adoption followed by resolution returns, and for
    every forward edge of kind [is_a], [part_of] or [is_part] from a term T
    of the store to the identifier of a term P of the store: the object P is
    among the parents computed for T, P carries the inverse edge to the
    object T, and for [is_a] and [part_of] the object T is among the
    children of P. *)
Theorem init_links_parent_and_child (self : Ontology) (h : Heap) :
  wf self h → adoptable self h → keyed_by_id self h →
  ∃ h2, Ontology.__init__ self h = Ok h2 ∧
    ∀ key a kind rel P ap,
      dict_get key (terms self) = Some a →
      (kind, rel) ∈ [("is_a", "can_be"); ("part_of", "has_part");
                     ("is_part", "part_of")] →
      has_edge h (relations (get_obj h a)) kind (EId P) →
      dict_get P (terms self) = Some ap →
      ERef ap ∈ elements (Term.compute_parents h2 a) ∧
      has_edge h2 (relations (get_obj h2 ap)) rel (ERef a) ∧
      (kind ≠ "is_part" → child h2 ap a).
Proof.
  intros Hwf Hadopt Hkeyed.
  destruct (adopt_fold self (Ontology.relationships self h) h
              (wf_store_dicts self h Hwf) Hadopt)
    as (h1 & Hfold & Hobjs & _ & Hmono & Hall).
  pose proof (adopt_wf self h h1 Hwf Hfold) as Hwf1.
  destruct (reference_spec self h1 Hwf1) as (h2 & Href & _).
  exists h2. split.
  { unfold Ontology.__init__. fold (Ontology._adopt self h) in Hfold.
    by rewrite Hfold. }
  intros key a kind rel P ap Hkey Hkind Hedge HP.
  assert (Hin : (EId P, rel, id (get_obj h a)) ∈ Ontology.relationships self h).
  { unfold Ontology.relationships. apply list_elem_of_bind.
    exists a. split; [|by eapply iter_store].
    rewrite !elem_of_app. rewrite !elem_of_cons in Hkind.
    destruct Hkind as [[= -> ->]|[[= -> ->]|[[= -> ->]|Hnil]]].
    - left. by apply forward_edge.
    - right. left. by apply forward_edge.
    - right. right. by apply forward_edge.
    - by apply elem_of_nil in Hnil. }
  pose proof (proj1 (Forall_forall _ _) Hall _ Hin P ap eq_refl HP) as Hinv.
  simpl in Hinv.
  assert (Hfwd2 : has_edge h2 (relations (get_obj h2 a)) kind (ERef ap)).
  { eapply (reference_resolves_edge self h1 h2 key a kind P ap); [done..| |done].
    rewrite (get_obj_objs_eq _ _ _ Hobjs). by apply Hmono. }
  assert (Hinv2 : has_edge h2 (relations (get_obj h2 ap)) rel (ERef a)).
  { eapply (reference_resolves_edge self h1 h2 P ap rel (id (get_obj h a)) a);
      [done..| |by eapply keyed_by_id_get].
    by rewrite (get_obj_objs_eq _ _ _ Hobjs). }
  rewrite !elem_of_cons in Hkind.
  split_and!; [|done|].
  - unfold Term.compute_parents. rewrite foldl_extend_from.
    cbn [elements app].
    apply (has_edge_endpoints_under h2 a kind); [done|].
    destruct Hkind as [[= -> ->]|[[= -> ->]|[[= -> ->]|Hnil]]];
      [left|right; right; left|right; left|by apply elem_of_nil in Hnil].
  - intros Hne. unfold child, Term.children. rewrite foldl_extend_from.
    cbn [elements app].
    apply (has_edge_endpoints_under h2 ap rel); [done|].
    destruct Hkind as [[= -> ->]|[[= -> ->]|[[= -> ->]|Hnil]]];
      [right; left|left|done|by apply elem_of_nil in Hnil].
Qed.

(** ** Serialization to obo *)

Lemma string_app_assoc (s1 s2 s3 : string) :
  (s1 +:+ s2) +:+ s3 = s1 +:+ (s2 +:+ s3).
Proof.
  induction s1 as [|c s1 IH]; [done|].
  change (String c ((s1 +:+ s2) +:+ s3) = String c (s1 +:+ (s2 +:+ s3))).
  by f_equal.
Qed.

Lemma string_app_nil_r (s : string) : s +:+ "" = s.
Proof.
  induction s as [|c s IH]; [done|].
  change (String c (s +:+ "") = String c s). by f_equal.
Qed.

(** A loop whose body only appends to the accumulator. *)
Lemma foldl_appends {A} (step : string → A → string) :
  (∀ o x, step o x = o +:+ step "" x) →
  ∀ l acc, foldl step acc l = acc +:+ foldl step "" l.
Proof.
  intros Hstep l. induction l as [|x l IH]; intros acc.
  - cbn [foldl]. by rewrite string_app_nil_r.
  - cbn [foldl]. rewrite IH, (IH (step "" x)), (Hstep acc x).
    apply string_app_assoc.
Qed.

Lemma companions_append h relation (l : list endpoint) acc :
  foldl (λ obo companion, obo +:+ Term.companion_line h relation companion) acc l =
  acc +:+ foldl (λ obo companion, obo +:+ Term.companion_line h relation companion) "" l.
Proof. by apply (foldl_appends (λ obo companion, obo +:+ _)). Qed.

Lemma relations_append (RSHIPS : list string) h (d : list (string * relval)) acc :
  let step := λ (obo : string) (kv : string * relval),
    if bool_decide (kv.1 ∈ RSHIPS)
    then foldl (λ obo companion, obo +:+ Term.companion_line h kv.1 companion)
               obo (elements kv.2)
    else obo in
  foldl step acc d = acc +:+ foldl step "" d.
Proof.
  intros step. apply foldl_appends. intros o kv. subst step. cbn beta.
  destruct (bool_decide (kv.1 ∈ RSHIPS)).
  - apply companions_append.
  - by rewrite string_app_nil_r.
Qed.

Lemma relations_listed_only (RSHIPS RSHIPS' : list string) h
    (d : list (string * relval)) : ∀ acc,
  Forall (λ kv, kv.1 ∈ RSHIPS ↔ kv.1 ∈ RSHIPS') d →
  foldl (λ (obo : string) (kv : string * relval),
           if bool_decide (kv.1 ∈ RSHIPS)
           then foldl (λ obo companion, obo +:+ Term.companion_line h kv.1 companion)
                      obo (elements kv.2)
           else obo) acc d =
  foldl (λ (obo : string) (kv : string * relval),
           if bool_decide (kv.1 ∈ RSHIPS')
           then foldl (λ obo companion, obo +:+ Term.companion_line h kv.1 companion)
                      obo (elements kv.2)
           else obo) acc d.
Proof.
  induction d as [|kv d IH]; intros acc Hd; [done|].
  apply Forall_cons in Hd as [Hkv Hd]. cbn [foldl].
  rewrite (bool_decide_ext _ _ Hkv). by apply IH.
Qed.

(** X13.  [Ontology.obo] writes every term of the store: the text is empty
    for an empty store, and for each term of the store it contains a newline
    followed by the whole of that term's own [obo]. *)
Theorem obo_writes_every_term (RSHIPS : list string) (self : Ontology) (h : Heap) :
  (terms self = [] → Ontology.obo RSHIPS self h = "") ∧
  ∀ key a, dict_get key (terms self) = Some a →
    ∃ before after,
      Ontology.obo RSHIPS self h =
      before +:+ nl +:+ Term.obo RSHIPS h a +:+ after.
Proof.
  split.
  - intros Hnil. unfold Ontology.obo, Ontology.__iter__. by rewrite Hnil.
  - intros key a Hkey. pose proof (iter_store self key a Hkey) as Hin.
    apply list_elem_of_split in Hin as (l1 & l2 & Hl).
    unfold Ontology.obo. rewrite Hl, foldl_app. cbn [foldl].
    set (step := λ (obo : string) (term : nat),
                   obo +:+ nl +:+ Term.obo RSHIPS h term).
    exists (foldl step "" l1), (foldl step "" l2).
    rewrite (foldl_appends step); [|done].
    subst step. cbn beta. by rewrite !string_app_assoc.
Qed.

(** X14.  [Term.obo] opens with the [[Term]], [id:] and [name:] lines of
    the term, and the relations enter it only through the kinds listed in
    [RSHIPS]: two tables that agree on the kinds the term has give the same
    text, so a relation of an unlisted kind is never written. *)
Theorem obo_header_and_listed_kinds (RSHIPS : list string) (h : Heap) (self : nat) :
  (∃ rest, Term.obo RSHIPS h self =
     "[Term]" +:+ nl +:+
     "id: " +:+ id (get_obj h self) +:+ nl +:+
     "name: " +:+ name (get_obj h self) +:+ nl +:+ rest) ∧
  (∀ RSHIPS',
     (∀ k, k ∈ dict_keys (get_dict h (relations (get_obj h self))) →
           k ∈ RSHIPS ↔ k ∈ RSHIPS') →
     Term.obo RSHIPS h self = Term.obo RSHIPS' h self) ∧
  (Forall (λ k, k ∉ RSHIPS) (dict_keys (get_dict h (relations (get_obj h self)))) →
   ∀ h', get_obj h' self = get_obj h self →
     Forall (λ k, k ∉ RSHIPS) (dict_keys (get_dict h' (relations (get_obj h self)))) →
     Term.obo RSHIPS h' self = Term.obo RSHIPS h self).
Proof.
  split_and!.
  - unfold Term.obo. cbn zeta.
    rewrite relations_append.
    rewrite (foldl_appends (λ obo kv, obo +:+ Term.other_lines kv.1 kv.2)); [|done].
    destruct (bool_decide (desc (get_obj h self) ≠ "")).
    + eexists. rewrite !string_app_assoc. reflexivity.
    + eexists. rewrite !string_app_assoc. reflexivity.
  - intros RSHIPS' Hagree. unfold Term.obo. cbn zeta.
    apply relations_listed_only. apply Forall_forall. intros kv Hkv.
    apply Hagree. unfold dict_keys. apply list_elem_of_fmap. by exists kv.
  - intros Hnone h' Hobj Hnone'. unfold Term.obo. cbn zeta. rewrite Hobj.
    assert (Hskip : ∀ hh (d : list (string * relval)) acc,
      Forall (λ k, k ∉ RSHIPS) (dict_keys d) →
      foldl (λ (obo : string) (kv : string * relval),
               if bool_decide (kv.1 ∈ RSHIPS)
               then foldl (λ obo companion,
                             obo +:+ Term.companion_line hh kv.1 companion)
                          obo (elements kv.2)
               else obo) acc d = acc).
    { intros hh d. induction d as [|kv d IH]; intros acc Hd; [done|].
      unfold dict_keys in Hd. csimpl in Hd. apply Forall_cons in Hd as [Hkv Hd].
      cbn [foldl]. rewrite bool_decide_false by done. by apply IH. }
    by rewrite !Hskip.
Qed.

(** ** The further properties on the example stores *)

Lemma ex_store_wf : wf ex_store ex_heap.
Proof. apply (bool_decide_unpack _); vm_compute; exact I. Defined.

Lemma ex_store_adoptable : adoptable ex_store ex_heap.
Proof. repeat constructor. Defined.

Lemma ex_resolved_acyclic : acyclic ex_resolved.
Proof.
  exists (λ a, match a with 1 => 1 | _ => 0 end). intros self c Hc.
  destruct self as [|[|[|self]]]; simpl in Hc.
  - by apply elem_of_nil in Hc.
  - apply elem_of_cons in Hc as [[= ->]|Hc]; [lia|by apply elem_of_nil in Hc].
  - by apply elem_of_nil in Hc.
  - by apply elem_of_nil in Hc.
Defined.

Lemma merge_heap_wf : wf ex_store merge_heap ∧ wf other_store merge_heap.
Proof. split; apply (bool_decide_unpack _); vm_compute; exact I. Defined.

(** The store of the scenario is iterated as B's key after A's. *)
Lemma iter_sorted_once_witness :
  NoDup (terms ex_store).*1 ∧
  ∃ items, items ≡ₚ terms ex_store ∧ Sorted key_le items ∧
           Ontology.__iter__ ex_store = items.*2.
Proof.
  assert (Hnd : NoDup (terms ex_store).*1)
    by (apply (bool_decide_unpack _); vm_compute; exact I).
  split; [exact Hnd|].
  destruct (iter_sorted_once ex_store Hnd) as (items & Hp & Hs & Hi & _).
  exists items. split; [exact Hp|]. split; [exact Hs|exact Hi].
Defined.

(** The store of the scenario filled in the other order. *)
Lemma insertion_order_irrelevant_witness :
  NoDup (terms ex_store).*1 ∧
  terms ex_store ≡ₚ [("A", 0); ("B", 1)] ∧
  Ontology.__iter__ ex_store = Ontology.__iter__ {| terms := [("A", 0); ("B", 1)] |} ∧
  Ontology._adopt ex_store ex_heap =
  Ontology._adopt {| terms := [("A", 0); ("B", 1)] |} ex_heap.
Proof.
  assert (Hnd : NoDup (terms ex_store).*1)
    by (apply (bool_decide_unpack _); vm_compute; exact I).
  assert (Hp : terms ex_store ≡ₚ [("A", 0); ("B", 1)]) by apply perm_swap.
  split; [exact Hnd|]. split; [exact Hp|].
  destruct (insertion_order_irrelevant ex_store {| terms := [("A", 0); ("B", 1)] |}
              ex_heap [] Hnd Hp) as (_ & _ & Hi & Ha & _).
  split; [exact Hi|exact Ha].
Defined.

(** B has the child A, one step away. *)
Lemma rchildren_reaches_witness :
  Term.rchildren 3 ex_resolved 1 (-1) true = Ok (TermList [ERef 0]) ∧
  ∃ k, (1 ≤ k)%nat ∧ hops ex_resolved k 1 0.
Proof.
  assert (Hr : Term.rchildren 3 ex_resolved 1 (-1) true = Ok (TermList [ERef 0]))
    by reflexivity.
  split; [exact Hr|].
  destruct (rchildren_reaches 3 ex_resolved 1 (-1) true _ Hr) as [_ Hc].
  destruct (proj1 (Hc 0)) as (k & Hk & _ & Hhops); [left|].
  exists k. split; [exact Hk|exact Hhops].
Defined.

(** The frontier of B without a bound on the resolved scenario. *)
Lemma rchildren_frontier_unbounded_is_empty_witness :
  children_are_Terms ex_resolved = true ∧ acyclic ex_resolved ∧
  ∃ fuel, Term.rchildren fuel ex_resolved 1 (-1) false = Ok (TermList []).
Proof.
  split; [reflexivity|]. split; [exact ex_resolved_acyclic|].
  destruct (rchildren_frontier_unbounded_is_empty ex_resolved 1 (-1) eq_refl
              ex_resolved_acyclic eq_refl) as (fuel & Hfuel).
  exists fuel. apply Hfuel. lia.
Defined.

(** Adoption on the scenario appends A under [can_be] of B. *)
Lemma adopt_appends_in_order_witness :
  wf ex_store ex_heap ∧ adoptable ex_store ex_heap ∧
  ∃ h', Ontology._adopt ex_store ex_heap = Ok h' ∧
        endpoints_at h' 2 "can_be" = [EId "A"].
Proof.
  split; [exact ex_store_wf|]. split; [exact ex_store_adoptable|].
  destruct (adopt_appends_in_order ex_store ex_heap ex_store_wf ex_store_adoptable)
    as (h' & Hadopt & _ & _ & _ & Happ).
  exists h'. split; [exact Hadopt|]. rewrite Happ. reflexivity.
Defined.

(** Merging the ontology that defines X into the resolved scenario. *)
Lemma merge_right_biased_witness :
  wf ex_store merge_heap ∧ wf other_store merge_heap ∧
  ∃ merged h',
    Ontology.merge ex_store merge_heap (inl other_store) = Ok (merged, h') ∧
    dict_get "X" (terms merged) = Some 3 ∧
    dict_get "A" (terms merged) = Some 0.
Proof.
  destruct merge_heap_wf as [Hwf Hwf'].
  split; [exact Hwf|]. split; [exact Hwf'|].
  destruct (merge_right_biased ex_store other_store merge_heap Hwf Hwf')
    as (_ & merged & h' & Hmerge & Hget & _).
  exists merged, h'. split; [exact Hmerge|].
  split; rewrite Hget; reflexivity.
Defined.

(** After the merge A still refers to the placeholder made for X, although
    X now is a term of the store. *)
Lemma merge_keeps_Term_endpoints_witness :
  wf ex_store merge_heap ∧ wf other_store merge_heap ∧
  ∃ merged h',
    Ontology.merge ex_store merge_heap (inl other_store) = Ok (merged, h') ∧
    ∃ v', dict_get "is_a" (get_dict h' 1) = Some v' ∧
          elements v' !! 1 = Some (ERef 2).
Proof.
  destruct merge_heap_wf as [Hwf Hwf'].
  split; [exact Hwf|]. split; [exact Hwf'|].
  destruct (merge_keeps_Term_endpoints ex_store other_store merge_heap Hwf Hwf')
    as (merged & h' & Hmerge & Hkeep).
  exists merged, h'. split; [exact Hmerge|].
  apply (Hkeep 1 "is_a" (TermList [ERef 1; ERef 2]) 1 2); reflexivity.
Defined.

(** The scenario of the specification through both passes. *)
Lemma init_links_parent_and_child_witness :
  wf ex_store ex_heap ∧ adoptable ex_store ex_heap ∧ keyed_by_id ex_store ex_heap ∧
  ∃ h2, Ontology.__init__ ex_store ex_heap = Ok h2 ∧
        ERef 1 ∈ elements (Term.compute_parents h2 0) ∧
        child h2 1 0.
Proof.
  assert (Hk : keyed_by_id ex_store ex_heap)
    by (apply (bool_decide_unpack _); vm_compute; exact I).
  split; [exact ex_store_wf|]. split; [exact ex_store_adoptable|].
  split; [exact Hk|].
  destruct (init_links_parent_and_child ex_store ex_heap ex_store_wf
              ex_store_adoptable Hk) as (h2 & Hinit & Hlinks).
  exists h2. split; [exact Hinit|].
  destruct (Hlinks "A" 0 "is_a" "can_be" "B" 1) as (Hpar & _ & Hchild);
    [reflexivity|left| |reflexivity|].
  - eexists. split; [reflexivity|]. left.
  - split; [exact Hpar|]. by apply Hchild.
Defined.
